(** * Mood-Ring: the animation engine of [mood_ring_app.py]

    A shallow embedding of class [AdvancedMoodStoneViz]: the three particle
    collections, the eight per-frame layers and the animation clock.

    Conventions of the embedding.
    - Python [float] values are real numbers ([R]); [math.sin], [math.cos]
      and [math.sqrt] are the functions of the Reals library.  Rounding is
      not modelled.
    - Python [int] values are [Z].
    - Python [str] values are [string]s (code points below 256).
    - The object [self], the Tk root it owns, the canvas and the global
      generator of module [random] form one explicit state record, threaded
      through a state-and-exception monad.  A raised exception keeps the
      state reached so far, as in-place mutation does in Python.
    - The canvas is an interface, [Canvas], with two implementations.  On
      the [recording] canvas a call records its arguments and accepts any
      option value: the canvas is the list of primitives drawn so far,
      oldest first.  [Tk.canvas] is that list behind Tk's check of the
      colour: a call whose [-fill] is not a colour raises [TclError].  A
      statement that names no canvas is about the recording one; the two
      run alike when Tk accepts every colour ([tk_animate_accepted]). *)

From Stdlib Require Import Reals Lra Lia ZArith List String Ascii Bool.
From Stdlib Require Import DecimalString.
Import ListNotations.
Open Scope R_scope.

(* ------------------------------------------------------------------ *)
(** ** Python primitives used by the engine *)

Module Py.

Inductive exn : Type :=
| ZeroDivisionError
| ValueError
| IndexError
| TclError.

Inductive result (A : Type) : Type :=
| Ok (a : A)
| Raise (e : exn).
Arguments Ok {A} a.
Arguments Raise {A} e.

(** [int(x)] on a float: truncation toward zero. *)
Definition int_of_float (r : R) : Z :=
  if Rle_dec 0 r then Zfloor r else Zceil r.

(** [a / b] on floats. *)
Definition truediv (a b : R) : result R :=
  if Req_dec_T b 0 then Raise ZeroDivisionError else Ok (a / b).

(** [a % b] on floats: the remainder has the sign of the divisor.  [frem]
    is its value for a divisor that is not zero. *)
Definition frem (a b : R) : R := a - IZR (Zfloor (a / b)) * b.

Definition fmod (a b : R) : result R :=
  if Req_dec_T b 0 then Raise ZeroDivisionError else Ok (frem a b).

(** [math.radians]. *)
Definition radians (deg : R) : R := deg * PI / 180.

(** [range(n)] and [range(0, stop, step)] for a positive step. *)
Definition range (n : Z) : list Z := map Z.of_nat (seq 0 (Z.to_nat n)).
Definition range_step (stop step : Z) : list Z :=
  map (fun k => (Z.of_nat k * step)%Z)
      (seq 0 (Z.to_nat ((stop + step - 1) / step))).

(** *** Strings *)

Definition chars (s : string) : list ascii := list_ascii_of_string s.

(** [s[i:j]] for [0 <= i <= j]. *)
Definition slice (i j : nat) (s : string) : string := substring i (j - i) s.

(** [str(n)] on an int. *)
Definition str (n : Z) : string := NilZero.string_of_int (Z.to_int n).

Definition hex_char (d : Z) : ascii :=
  nth (Z.to_nat d) (chars "0123456789abcdef") "0"%char.

Fixpoint hex_digits (fuel : nat) (n : Z) : string :=
  match fuel with
  | O => EmptyString
  | S k =>
      if (n <? 16)%Z then String (hex_char n) EmptyString
      else (hex_digits k (n / 16)
            ++ String (hex_char (n mod 16)) EmptyString)%string
  end.

(** Lower-case hexadecimal digits of a natural number. *)
Definition hex (n : Z) : string := hex_digits (S (Z.to_nat (Z.log2 n))) n.

(** [format(n, "02x")]: sign, then the digits zero-padded to width 2
    (the sign counts in the width). *)
Definition format_02x (n : Z) : string :=
  let body := hex (Z.abs n) in
  if (n <? 0)%Z then String "-"%char body
  else if (String.length body <? 2)%nat then String "0"%char body
  else body.

(** White space that [int(str, base)] strips. *)
Definition is_space (c : ascii) : bool :=
  let n := nat_of_ascii c in
  ((9 <=? n) && (n <=? 13) || (n =? 32) || (n =? 133) || (n =? 160))%nat.

Definition hex_value (c : ascii) : option Z :=
  let n := Z.of_nat (nat_of_ascii c) in
  if ((48 <=? n) && (n <=? 57))%Z then Some (n - 48)%Z
  else if ((97 <=? n) && (n <=? 102))%Z then Some (n - 87)%Z
  else if ((65 <=? n) && (n <=? 70))%Z then Some (n - 55)%Z
  else None.

Fixpoint lstrip (s : list ascii) : list ascii :=
  match s with
  | c :: r => if is_space c then lstrip r else s
  | [] => []
  end.

Definition strip (s : list ascii) : list ascii :=
  rev (lstrip (rev (lstrip s))).

(** Digits with single underscores between them, at least one digit;
    [prev] tells whether the previous character was a digit. *)
Fixpoint digits16 (acc : Z) (prev : bool) (s : list ascii) : option Z :=
  match s with
  | [] => if prev then Some acc else None
  | c :: r =>
      if Ascii.eqb c "_" then
        if prev then digits16 acc false r else None
      else
        match hex_value c with
        | Some d => digits16 (16 * acc + d)%Z true r
        | None => None
        end
  end.

(** [int(s, 16)]: [None] stands for [ValueError]. *)
Definition int16 (s : string) : option Z :=
  let body := strip (chars s) in
  let '(sign, body) :=
    match body with
    | "+"%char :: r => (1%Z, r)
    | "-"%char :: r => ((-1)%Z, r)
    | _ => (1%Z, body)
    end in
  let skip_underscore r :=
    match r with
    | "_"%char :: r' => r'
    | _ => r
    end in
  let body :=
    match body with
    | "0"%char :: "x"%char :: r => skip_underscore r
    | "0"%char :: "X"%char :: r => skip_underscore r
    | _ => body
    end in
  option_map (Z.mul sign) (digits16 0 false body).

End Py.
Import Py.

(* ------------------------------------------------------------------ *)
(** ** Data model *)

(** The value of key ['energy_type'], one of ['core'], ['stress'],
    ['economic']. *)
Inductive energy_type : Type := core | stress | economic.

(** One dict of [self.particles]. *)
Module Particle.
Record t : Type := mk {
  x : R; y : R; vx : R; vy : R;
  life : R; max_life : R; size : R;
  energy_type : energy_type }.

Definition set_x (p : t) (v : R) : t :=
  mk v (y p) (vx p) (vy p) (life p) (max_life p) (size p) (energy_type p).
Definition set_y (p : t) (v : R) : t :=
  mk (x p) v (vx p) (vy p) (life p) (max_life p) (size p) (energy_type p).
Definition set_vx (p : t) (v : R) : t :=
  mk (x p) (y p) v (vy p) (life p) (max_life p) (size p) (energy_type p).
Definition set_vy (p : t) (v : R) : t :=
  mk (x p) (y p) (vx p) v (life p) (max_life p) (size p) (energy_type p).
Definition set_life (p : t) (v : R) : t :=
  mk (x p) (y p) (vx p) (vy p) v (max_life p) (size p) (energy_type p).
End Particle.

(** One dict of [self.energy_wisps]. *)
Module Wisp.
Record t : Type := mk {
  angle : R; radius : R; flow_speed : R; amplitude : R; frequency : R }.

Definition set_angle (w : t) (v : R) : t :=
  mk v (radius w) (flow_speed w) (amplitude w) (frequency w).
End Wisp.

(** One dict of [self.stress_fragments]. *)
Module Fragment.
Record t : Type := mk {
  x : R; y : R; target_x : Z; target_y : Z;
  speed : R; size : R; chaos_factor : R }.
End Fragment.

(** The keys of [mood_data] that the visualization reads.  ['patterns'] is
    read with [.get('patterns', [])], so it may be absent. *)
Record mood : Type := mk_mood {
  name : string;
  colors : list string;
  stress_level : Z;
  economic_pressure : Z;
  life_events : Z;
  patterns : option (list string) }.

(** A primitive on the Tk canvas, with the options the engine passes. *)
Inductive item : Type :=
| oval (x0 y0 x1 y1 : R) (fill : string) (tags : string)
| line (coords : list R) (fill : string) (width : Z) (smooth : bool)
       (tags : string)
| text (x y : R) (txt : string) (font : string * Z * bool) (fill : string)
       (tags : string).

Definition item_tags (i : item) : string :=
  match i with
  | oval _ _ _ _ _ t => t
  | line _ _ _ _ t => t
  | text _ _ _ _ _ t => t
  end.

Definition item_fill (i : item) : string :=
  match i with
  | oval _ _ _ _ c _ => c
  | line _ c _ _ _ => c
  | text _ _ _ _ c _ => c
  end.

(** The generator behind module [random]: an arbitrary sequence of draws.
    [draws k] is the value of the k-th call when it is [random.random()],
    [picks k] when it is an index choice. *)
Module Random.
Record t : Type := mk { draws : nat -> R; picks : nat -> nat; cursor : nat }.

Definition advance (g : t) : t := mk (draws g) (picks g) (S (cursor g)).

(** What [random.random()] promises: every draw lies in [0, 1). *)
Definition valid (g : t) : Prop := forall k, 0 <= draws g k < 1.
End Random.

(** The attributes of [self], the Tk root it holds ([root_destroyed], and
    [after_queue]: the delays of the [animate] callbacks registered with
    [root.after] and not yet run) and the generator of module [random]. *)
Record viz : Type := mk_viz {
  root_destroyed : bool;
  after_queue : list Z;
  width : Z;
  height : Z;
  canvas : list item;
  frame : Z;
  running : bool;
  center_x : Z;
  center_y : Z;
  mood_data : mood;
  particles : list Particle.t;
  energy_wisps : list Wisp.t;
  stress_fragments : list Fragment.t;
  generator : Random.t }.

Definition set_root_destroyed (s : viz) (v : bool) : viz :=
  mk_viz v (after_queue s) (width s) (height s) (canvas s) (frame s)
         (running s) (center_x s) (center_y s) (mood_data s) (particles s)
         (energy_wisps s) (stress_fragments s) (generator s).
Definition set_after_queue (s : viz) (v : list Z) : viz :=
  mk_viz (root_destroyed s) v (width s) (height s) (canvas s) (frame s)
         (running s) (center_x s) (center_y s) (mood_data s) (particles s)
         (energy_wisps s) (stress_fragments s) (generator s).
Definition set_canvas (s : viz) (v : list item) : viz :=
  mk_viz (root_destroyed s) (after_queue s) (width s) (height s) v (frame s)
         (running s) (center_x s) (center_y s) (mood_data s) (particles s)
         (energy_wisps s) (stress_fragments s) (generator s).
Definition set_frame (s : viz) (v : Z) : viz :=
  mk_viz (root_destroyed s) (after_queue s) (width s) (height s) (canvas s) v
         (running s) (center_x s) (center_y s) (mood_data s) (particles s)
         (energy_wisps s) (stress_fragments s) (generator s).
Definition set_running (s : viz) (v : bool) : viz :=
  mk_viz (root_destroyed s) (after_queue s) (width s) (height s) (canvas s)
         (frame s) v (center_x s) (center_y s) (mood_data s) (particles s)
         (energy_wisps s) (stress_fragments s) (generator s).
Definition set_particles (s : viz) (v : list Particle.t) : viz :=
  mk_viz (root_destroyed s) (after_queue s) (width s) (height s) (canvas s)
         (frame s) (running s) (center_x s) (center_y s) (mood_data s) v
         (energy_wisps s) (stress_fragments s) (generator s).
Definition set_energy_wisps (s : viz) (v : list Wisp.t) : viz :=
  mk_viz (root_destroyed s) (after_queue s) (width s) (height s) (canvas s)
         (frame s) (running s) (center_x s) (center_y s) (mood_data s)
         (particles s) v (stress_fragments s) (generator s).
Definition set_stress_fragments (s : viz) (v : list Fragment.t) : viz :=
  mk_viz (root_destroyed s) (after_queue s) (width s) (height s) (canvas s)
         (frame s) (running s) (center_x s) (center_y s) (mood_data s)
         (particles s) (energy_wisps s) v (generator s).
Definition set_generator (s : viz) (v : Random.t) : viz :=
  mk_viz (root_destroyed s) (after_queue s) (width s) (height s) (canvas s)
         (frame s) (running s) (center_x s) (center_y s) (mood_data s)
         (particles s) (energy_wisps s) (stress_fragments s) v.

(* ------------------------------------------------------------------ *)
(** ** The state-and-exception monad *)

Definition M (A : Type) : Type := viz -> result A * viz.

Definition ret {A} (a : A) : M A := fun s => (Ok a, s).

Definition bind {A B} (m : M A) (k : A -> M B) : M B :=
  fun s =>
    match m s with
    | (Ok a, s') => k a s'
    | (Raise e, s') => (Raise e, s')
    end.

Definition raise {A} (e : exn) : M A := fun s => (Raise e, s).

Definition lift {A} (r : result A) : M A := fun s => (r, s).

(** Read an attribute of [self]. *)
Definition get {A} (f : viz -> A) : M A := fun s => (Ok (f s), s).

(** Mutate [self] in place. *)
Definition modify (f : viz -> viz) : M unit := fun s => (Ok tt, f s).

(** [try: m except: h] with a bare [except]. *)
Definition try_except {A} (m h : M A) : M A :=
  fun s =>
    match m s with
    | (Ok a, s') => (Ok a, s')
    | (Raise _, s') => h s'
    end.

Declare Scope monad_scope.
Delimit Scope monad_scope with monad.
Notation "x <- m ;; k" := (bind m (fun x => k))
  (at level 61, m at next level, right associativity) : monad_scope.
Notation "m ;; k" := (bind m (fun _ => k))
  (at level 61, right associativity) : monad_scope.
Open Scope monad_scope.

(** [for a in l: body(a)]. *)
Fixpoint for_each {A} (l : list A) (body : A -> M unit) : M unit :=
  match l with
  | [] => ret tt
  | a :: r => body a ;; for_each r body
  end.

(** The state a computation leaves behind, whether it returned or raised. *)
Definition exec {A} (m : M A) (s : viz) : viz := snd (m s).

(** *** Module [random] *)

Definition random : M R :=
  fun s =>
    let g := generator s in
    (Ok (Random.draws g (Random.cursor g)), set_generator s (Random.advance g)).

(** [random.uniform(a, b)] is [a + (b - a) * random()]. *)
Definition uniform (a b : R) : M R :=
  u <- random ;; ret (a + (b - a) * u).

(** [random.choice(seq)]; an empty sequence raises [IndexError]. *)
Definition choice {A} (l : list A) : M A :=
  fun s =>
    let g := generator s in
    match nth_error l (Random.picks g (Random.cursor g) mod List.length l) with
    | Some a => (Ok a, set_generator s (Random.advance g))
    | None => (Raise IndexError, s)
    end.

(** *** The canvas *)

(** [self.canvas.delete(tag)]. *)
Definition canvas_delete (tag : string) : M unit :=
  modify (fun s =>
    set_canvas s
      (filter (fun i => negb (String.eqb (item_tags i) tag)) (canvas s))).

(** [self.canvas.create_line], [create_oval] and [create_text].  The
    engine is written once, against the canvas as an interface with this
    one method; the implementations come after the engine. *)
Class Canvas : Type := canvas_create : item -> M unit.

(* ------------------------------------------------------------------ *)
(** ** [AdvancedMoodStoneViz] *)

(** In-place access to the dict at index [i] of [self.particles] and of
    [self.energy_wisps]. *)
Fixpoint list_set {A} (i : nat) (a : A) (l : list A) : list A :=
  match l, i with
  | [], _ => []
  | _ :: r, O => a :: r
  | b :: r, S k => b :: list_set k a r
  end.

Definition store_particle (i : nat) (p : Particle.t) : M unit :=
  modify (fun s => set_particles s (list_set i p (particles s))).

Definition store_wisp (i : nat) (w : Wisp.t) : M unit :=
  modify (fun s => set_energy_wisps s (list_set i w (energy_wisps s))).

(** [initialize_particles]: one iteration of each of its three loops. *)
Definition new_particle : M unit :=
  cx <- get center_x ;; cy <- get center_y ;;
  ux <- uniform (-100) 100 ;;
  uy <- uniform (-100) 100 ;;
  vx <- uniform (-2) 2 ;;
  vy <- uniform (-2) 2 ;;
  life <- uniform 50 200 ;;
  max_life <- uniform 50 200 ;;
  size <- uniform 1 4 ;;
  energy <- choice [core; stress; economic] ;;
  modify (fun s =>
    set_particles s
      (particles s ++
       [Particle.mk (IZR cx + ux) (IZR cy + uy) vx vy life max_life size
                    energy])).

Definition new_wisp (wisp_count i : Z) : M unit :=
  step <- lift (truediv (2 * PI) (IZR wisp_count)) ;;
  radius <- uniform 80 150 ;;
  flow_speed <- uniform 0.01 0.03 ;;
  amplitude <- uniform 10 30 ;;
  frequency <- uniform 0.5 2.0 ;;
  modify (fun s =>
    set_energy_wisps s
      (energy_wisps s ++
       [Wisp.mk (IZR i * step) radius flow_speed amplitude frequency])).

Definition new_fragment (stress_intensity : R) : M unit :=
  cx <- get center_x ;; cy <- get center_y ;;
  ux <- uniform (-200) 200 ;;
  uy <- uniform (-200) 200 ;;
  speed <- uniform 0.5 2.0 ;;
  size <- uniform 2 6 ;;
  modify (fun s =>
    set_stress_fragments s
      (stress_fragments s ++
       [Fragment.mk (IZR cx + ux) (IZR cy + uy) cx cy speed size
                    stress_intensity])).

Definition initialize_particles : M unit :=
  (* Core energy particles *)
  md <- get mood_data ;;
  let particle_count := Z.max 50 (Z.min 200 (150 - stress_level md)) in
  for_each (range particle_count) (fun _ => new_particle) ;;
  (* Energy flow wisps *)
  let wisp_count := Z.max 6 (12 - economic_pressure md / 10) in
  for_each (range wisp_count) (new_wisp wisp_count) ;;
  (* Stress visualization fragments *)
  let stress_intensity := IZR (stress_level md) / 100 in
  for_each (range (int_of_float (30 * stress_intensity)))
           (fun _ => new_fragment stress_intensity).

(** [__init__]: the attributes before [initialize_particles] runs, for a
    generator [g], then the initialization. *)
Definition fresh (md : mood) (g : Random.t) : viz :=
  mk_viz false [] 1000 700 [] 0 true (1000 / 2)%Z (700 / 2)%Z md [] [] [] g.

Definition init (md : mood) (g : Random.t) : result unit * viz :=
  initialize_particles (fresh md g).

(** [f"#{r:02x}{g:02x}{b:02x}"]. *)
Definition hex_color (r g b : Z) : string :=
  (String "#"%char (format_02x r) ++ format_02x g ++ format_02x b)%string.

Definition clamp_byte (n : Z) : Z := Z.max 0 (Z.min 255 n).

Definition create_holographic_background `{Canvas} : M unit :=
  canvas_delete "background" ;;
  for_each (range 6) (fun layer =>
    w <- get width ;; cy <- get center_y ;; fr <- get frame ;;
    let wave_frequency := 0.01 + IZR layer * 0.002 in
    let wave_amplitude := IZR (20 + layer * 8) in
    let points :=
      flat_map (fun x =>
        let y1 :=
          IZR cy
          + wave_amplitude
            * sin (IZR x * wave_frequency + IZR fr * 0.02 + IZR layer) in
        let y2 :=
          y1 + 30 * sin (IZR x * wave_frequency * 1.7 + IZR fr * 0.015) in
        [IZR x; y2]) (range_step w 15) in
    if (6 <=? List.length points)%nat then
      let hue_shift := frem (IZR fr * 0.003 + IZR layer * 0.2) 1 in
      let intensity := IZR (30 + 20 * layer) in
      let r := int_of_float (intensity + 20 * sin (hue_shift * 6.28)) in
      let g :=
        int_of_float (intensity * 0.7 + 15 * sin (hue_shift * 6.28 + 2.1)) in
      let b :=
        int_of_float (intensity * 1.2 + 25 * sin (hue_shift * 6.28 + 4.2)) in
      let color := hex_color (clamp_byte r) (clamp_byte g) (clamp_byte b) in
      canvas_create (line points color 2 true "background")
    else ret tt).

(** The colour of one ring of the stone: lines 558-575. *)
Definition ring_color (base_color : string) (stress_multiplier : R)
           (fr ring : Z) : M string :=
  if (String.length base_color =? 7)%nat then
    try_except
      (let parse s :=
         match int16 s with Some n => ret n | None => raise ValueError end in
       r <- parse (slice 1 3 base_color) ;;
       g <- parse (slice 3 5 base_color) ;;
       b <- parse (slice 5 7 base_color) ;;
       let stress_factor :=
         1 + stress_multiplier * 0.3 * sin (IZR fr * 0.1 + IZR ring) in
       let r := int_of_float (Rmax 0 (Rmin 255 (IZR r * stress_factor))) in
       let g := int_of_float (Rmax 0 (Rmin 255 (IZR g * stress_factor))) in
       let b := int_of_float (Rmax 0 (Rmin 255 (IZR b * stress_factor))) in
       ret (hex_color r g b))
      (ret base_color)
  else ret base_color.

(** The size of ring [ring] at frame [fr]: lines 538 and 546-552. *)
Definition ring_size (economic_compression : R) (fr ring : Z) : R :=
  let base_size := 100 in
  let pulse1 := sin (IZR fr * 0.04 + IZR ring * 0.3) * 6 in
  let pulse2 := cos (IZR fr * 0.06 + IZR ring * 0.2) * 4 in
  let current_size := base_size - IZR ring * 7 + pulse1 + pulse2 in
  current_size * (1 - economic_compression * 0.25).

(** The body of the loop of [create_mood_stone_core] for ring [ring]:
    lines 545-588. *)
Definition stone_ring `{Canvas} (mood_colors : list string)
           (stress_multiplier economic_compression : R) (ring : Z) : M unit :=
  fr <- get frame ;; cx <- get center_x ;; cy <- get center_y ;;
  let current_size := ring_size economic_compression fr ring in
  (* Color from mood palette *)
  m <- lift (fmod (IZR fr * 0.01 + IZR ring * 0.2)
                  (INR (List.length mood_colors))) ;;
  let color_index := int_of_float m in
  base_color <-
    match nth_error mood_colors (Z.to_nat color_index) with
    | Some c => ret c
    | None => raise IndexError
    end ;;
  (* Apply stress distortion *)
  color <- ring_color base_color stress_multiplier fr ring ;;
  (* 3D offset effect *)
  let offset_x := cos (IZR ring * 0.4) * 1 in
  let offset_y := sin (IZR ring * 0.4) * 1 in
  if Rlt_dec 0 current_size then
    canvas_create
      (oval (IZR cx - current_size + offset_x)
            (IZR cy - current_size + offset_y)
            (IZR cx + current_size + offset_x)
            (IZR cy + current_size + offset_y)
            color "stone_core")
  else ret tt.

Definition create_mood_stone_core `{Canvas} : M unit :=
  canvas_delete "stone_core" ;;
  md <- get mood_data ;;
  let mood_colors := colors md in
  let stress_multiplier := IZR (stress_level md) / 100 in
  let economic_compression := IZR (economic_pressure md) / 100 in
  for_each (range 10)
           (stone_ring mood_colors stress_multiplier economic_compression).

Definition create_economic_pressure_visualization `{Canvas} : M unit :=
  canvas_delete "economic_pressure" ;;
  md <- get mood_data ;;
  let pressure := IZR (economic_pressure md) / 100 in
  if Rlt_dec 0.3 pressure then
    for_each (range_step 360 20) (fun angle =>
      fr <- get frame ;; cx <- get center_x ;; cy <- get center_y ;;
      let rad := radians (IZR angle) in
      let start_distance := 180 + 40 * sin (IZR fr * 0.03 + IZR angle * 0.1) in
      let start_x := IZR cx + start_distance * cos rad in
      let start_y := IZR cy + start_distance * sin rad in
      let end_distance := 120 - pressure * 25 in
      let end_x := IZR cx + end_distance * cos rad in
      let end_y := IZR cy + end_distance * sin rad in
      let intensity :=
        int_of_float (150 * pressure * (0.5 + 0.5 * sin (IZR fr * 0.04))) in
      let pressure_color :=
        hex_color intensity (intensity / 3) (intensity / 3) in
      canvas_create
        (line [start_x; start_y; end_x; end_y] pressure_color 2 false
              "economic_pressure"))
  else ret tt.

(** A list with its indices: the references a [for] loop walks through. *)
Definition indexed {A} (l : list A) : list (nat * A) :=
  combine (seq 0 (List.length l)) l.

(** The divisor of the centripetal pull: line 624. *)
Definition pull_distance (dx dy : R) : R :=
  if Rlt_dec 0 (dx * dx + dy * dy) then sqrt (dx * dx + dy * dy) else 1.

(** The body of the loop of [update_particle_systems], for the dict [p]
    found at index [i]; lines 621-645.  The dict is written back before
    every operation that can raise and at the end. *)
Definition physics (i : nat) (p : Particle.t) : M Particle.t :=
  cx <- get center_x ;; cy <- get center_y ;; md <- get mood_data ;;
  (* Gravitational attraction *)
  let dx := IZR cx - Particle.x p in
  let dy := IZR cy - Particle.y p in
  let distance := pull_distance dx dy in
  (* Multiple forces *)
  let gravity := 0.08 in
  qx <- lift (truediv dx distance) ;;
  let p := Particle.set_vx p (Particle.vx p + qx * gravity) in
  store_particle i p ;;
  qy <- lift (truediv dy distance) ;;
  let p := Particle.set_vy p (Particle.vy p + qy * gravity) in
  store_particle i p ;;
  (* Stress creates chaos *)
  let stress_chaos := IZR (stress_level md) / 100 * 0.3 in
  nx <- uniform (- stress_chaos) stress_chaos ;;
  let p := Particle.set_vx p (Particle.vx p + nx) in
  ny <- uniform (- stress_chaos) stress_chaos ;;
  let p := Particle.set_vy p (Particle.vy p + ny) in
  (* Update position *)
  let p := Particle.set_x p (Particle.x p + Particle.vx p) in
  let p := Particle.set_y p (Particle.y p + Particle.vy p) in
  (* Damping *)
  let p := Particle.set_vx p (Particle.vx p * 0.98) in
  let p := Particle.set_vy p (Particle.vy p * 0.98) in
  (* Update life *)
  let p := Particle.set_life p (Particle.life p - 1) in
  store_particle i p ;;
  ret p.

(** Lines 649-655, the branch taken when [particle['life'] <= 0]. *)
Definition respawn (i : nat) (p : Particle.t) : M Particle.t :=
  cx <- get center_x ;; cy <- get center_y ;;
  angle <- uniform 0 (2 * PI) ;;
  spawn_distance <- uniform 150 250 ;;
  let p := Particle.set_x p (IZR cx + spawn_distance * cos angle) in
  let p := Particle.set_y p (IZR cy + spawn_distance * sin angle) in
  let p := Particle.set_life p (Particle.max_life p) in
  vx <- uniform (-1) 1 ;;
  let p := Particle.set_vx p vx in
  vy <- uniform (-1) 1 ;;
  let p := Particle.set_vy p vy in
  store_particle i p ;;
  ret p.

(** Lines 657-674. *)
Definition draw_particle `{Canvas} (p : Particle.t) : M unit :=
  alpha <- lift (truediv (Particle.life p) (Particle.max_life p)) ;;
  let size := Particle.size p * alpha in
  (* Color based on particle type *)
  let color :=
    match Particle.energy_type p with
    | stress => "#FF6666"
    | economic => "#FFAA44"
    | core => "#66AAFF"
    end%string in
  if Rlt_dec 0.5 size then
    canvas_create
      (oval (Particle.x p - size) (Particle.y p - size)
            (Particle.x p + size) (Particle.y p + size)
            color "particles")
  else ret tt.

Definition update_particle `{Canvas} (i : nat) (p : Particle.t) : M unit :=
  p <- physics i p ;;
  (* Respawn if needed *)
  p <- (if Rle_dec (Particle.life p) 0 then respawn i p else ret p) ;;
  (* Draw particle *)
  draw_particle p.

Definition update_particle_systems `{Canvas} : M unit :=
  canvas_delete "particles" ;;
  ps <- get particles ;;
  for_each (indexed ps) (fun ip => update_particle (fst ip) (snd ip)).

Definition create_energy_flow_wisps `{Canvas} : M unit :=
  canvas_delete "energy_wisps" ;;
  ws <- get energy_wisps ;;
  for_each (indexed ws) (fun iw =>
    let i := fst iw in
    let wisp := snd iw in
    let wisp := Wisp.set_angle wisp (Wisp.angle wisp + Wisp.flow_speed wisp) in
    store_wisp i wisp ;;
    fr <- get frame ;; cx <- get center_x ;; cy <- get center_y ;;
    (* Create flowing path *)
    let path_points :=
      flat_map (fun t =>
        let angle := Wisp.angle wisp + IZR t * 0.15 in
        let base_radius := Wisp.radius wisp in
        let r1 := base_radius
                  + Wisp.amplitude wisp * sin (angle * Wisp.frequency wisp) in
        let r2 := r1 + 12 * cos (angle * Wisp.frequency wisp * 1.8) in
        [IZR cx + r2 * cos angle; IZR cy + r2 * sin angle]) (range 15) in
    if (6 <=? List.length path_points)%nat then
      let hue_shift := frem (IZR fr * 0.008 + Wisp.angle wisp) 1 in
      let r := int_of_float (80 + 80 * sin (hue_shift * 6.28)) in
      let g := int_of_float (120 + 40 * cos (hue_shift * 6.28 + 2)) in
      let b := int_of_float (160 + 45 * sin (hue_shift * 6.28 + 4)) in
      let wisp_color := hex_color r g b in
      canvas_create (line path_points wisp_color 2 true "energy_wisps")
    else ret tt).

Definition create_stress_pattern_overlay `{Canvas} : M unit :=
  canvas_delete "stress_patterns" ;;
  md <- get mood_data ;;
  let patterns := match patterns md with Some l => l | None => [] end in
  for_each patterns (fun pattern =>
    if String.eqb pattern "economic_psychological_spiral" then
      (* Spiral pattern *)
      for_each (range 80) (fun t =>
        fr <- get frame ;; cx <- get center_x ;; cy <- get center_y ;;
        let angle := IZR t * 0.12 + IZR fr * 0.02 in
        let radius := 70 + IZR t * 0.6 in
        let x := IZR cx + radius * cos angle in
        let y := IZR cy + radius * sin angle in
        let size := Rmax 0 (2.5 - IZR t * 0.02) in
        if Rlt_dec 0 size then
          canvas_create
            (oval (x - size) (y - size) (x + size) (y + size)
                  "#FF6B6B" "stress_patterns")
        else ret tt)
    else if String.eqb pattern "survival_mode_activation" then
      (* Alert spikes *)
      for_each (range 8) (fun spike =>
        fr <- get frame ;; cx <- get center_x ;; cy <- get center_y ;;
        let angle := IZR spike * (2 * PI / 8) + IZR fr * 0.05 in
        let base_length := 90 in
        let spike_length :=
          base_length + 25 * sin (IZR fr * 0.08 + IZR spike) in
        let start_x := IZR cx + 70 * cos angle in
        let start_y := IZR cy + 70 * sin angle in
        let end_x := IZR cx + spike_length * cos angle in
        let end_y := IZR cy + spike_length * sin angle in
        canvas_create
          (line [start_x; start_y; end_x; end_y] "#FF4444" 3 false
                "stress_patterns"))
    else ret tt).

(** The fonts [("Arial", 16, "bold")] and [("Arial", 11)]. *)
Definition arial_16_bold : string * Z * bool := ("Arial"%string, 16%Z, true).
Definition arial_11 : string * Z * bool := ("Arial"%string, 11%Z, false).

Definition create_floating_text `{Canvas} : M unit :=
  canvas_delete "floating_text" ;;
  fr <- get frame ;; cx <- get center_x ;; cy <- get center_y ;;
  md <- get mood_data ;;
  (* Main archetype name *)
  let text_y := IZR cy + 150 + 8 * sin (IZR fr * 0.04) in
  (* Holographic color shifting *)
  let hue := frem (IZR fr * 0.006) 1 in
  let r := int_of_float (120 + 120 * sin (hue * 6.28)) in
  let g := int_of_float (120 + 120 * sin (hue * 6.28 + 2.1)) in
  let b := int_of_float (120 + 120 * sin (hue * 6.28 + 4.2)) in
  let text_color := hex_color r g b in
  (* Archetype name *)
  canvas_create
    (text (IZR cx) text_y (name md) arial_16_bold text_color
          "floating_text") ;;
  (* Metrics *)
  let stress_text :=
    ("Stress Level: " ++ str (stress_level md) ++ "%")%string in
  canvas_create
    (text (IZR cx) (text_y + 25) stress_text arial_11 "#AAAAAA"
          "floating_text") ;;
  let econ_text :=
    ("Economic Pressure: " ++ str (economic_pressure md) ++ "%")%string in
  canvas_create
    (text (IZR cx) (text_y + 45) econ_text arial_11 "#FFAA66"
          "floating_text") ;;
  let life_text :=
    ("Life Events: " ++ str (life_events md) ++ "%")%string in
  canvas_create
    (text (IZR cx) (text_y + 65) life_text arial_11 "#66AAFF"
          "floating_text").

Definition create_sparkle_field `{Canvas} : M unit :=
  canvas_delete "sparkles" ;;
  md <- get mood_data ;;
  let positive_energy := IZR (Z.max 0 (100 - stress_level md)) / 100 in
  let num_sparkles := (int_of_float (40 * positive_energy) + 15)%Z in
  for_each (range num_sparkles) (fun _ =>
    fr <- get frame ;; cx <- get center_x ;; cy <- get center_y ;;
    angle <- uniform 0 (2 * PI) ;;
    distance <- uniform 120 350 ;;
    let x := IZR cx + distance * cos (angle + IZR fr * 0.002) in
    let y := IZR cy + distance * sin (angle + IZR fr * 0.002) in
    let sparkle_life := ((fr + int_of_float (x + y)) mod 50)%Z in
    if (sparkle_life <? 15)%Z then
      let size := IZR (15 - sparkle_life) / 3 in
      let brightness :=
        int_of_float (IZR (200 * (15 - sparkle_life)) / 15) in
      let sparkle_color := hex_color brightness brightness brightness in
      canvas_create
        (oval (x - size) (y - size) (x + size) (y + size)
              sparkle_color "sparkles")
    else ret tt).

(** [self.root.after(ms, self.animate)]. *)
Definition root_after (ms : Z) : M unit :=
  modify (fun s => set_after_queue s (after_queue s ++ [ms])).

(** [self.root.destroy()]; Tk raises [TclError] when the application has
    already been destroyed. *)
Definition root_destroy : M unit :=
  destroyed <- get root_destroyed ;;
  if destroyed then raise TclError
  else modify (fun s => set_root_destroyed s true).

(** The per-tick entry point. *)
Definition animate `{Canvas} : M unit :=
  r <- get running ;;
  if negb r then ret tt
  else
    (* Clear and redraw all layers *)
    create_holographic_background ;;
    create_economic_pressure_visualization ;;
    create_energy_flow_wisps ;;
    update_particle_systems ;;
    create_mood_stone_core ;;
    create_stress_pattern_overlay ;;
    create_sparkle_field ;;
    create_floating_text ;;
    modify (fun s => set_frame s (frame s + 1)%Z) ;;
    (* Continue animation *)
    root_after 40.

Definition on_closing : M unit :=
  modify (fun s => set_running s false) ;;
  root_destroy.

(** [n] calls of the per-tick entry point, as the Tk main loop makes them:
    a call that raises is reported by Tk and leaves the state it reached. *)
Fixpoint ticks `{Canvas} (n : nat) (s : viz) : viz :=
  match n with
  | O => s
  | S k => ticks k (exec animate s)
  end.

(** *** Two canvases *)

(** The canvas that records every call with its arguments and accepts any
    option value.  A statement that names no canvas is about this one. *)
#[export] Instance recording : Canvas :=
  fun i => modify (fun s => set_canvas s (canvas s ++ [i])).

(** Tk's canvas.  Before it creates an item, Tk parses the value of
    [-fill] and raises [TclError] when it is not a colour.  A colour is
    the empty string (no fill), [#] followed by 3, 6, 9 or 12 hexadecimal
    digits, or a name of the colour table of the platform, [named]. *)
Module Tk.
Section Colors.
Variable named : string -> bool.

Definition hex_digit (c : ascii) : bool :=
  match hex_value c with
  | Some _ => true
  | None => false
  end.

Definition color (c : string) : bool :=
  match chars c with
  | [] => true
  | "#"%char :: digits =>
      forallb hex_digit digits
      && existsb (Nat.eqb (List.length digits)) [3; 6; 9; 12]%nat
  | _ => named c
  end.

Definition canvas : Canvas :=
  fun i =>
    if color (item_fill i) then @canvas_create recording i
    else raise TclError.

End Colors.
End Tk.

(* ------------------------------------------------------------------ *)
(** * Specification vocabulary *)

(** ** A weakest-precondition calculus for [M] *)

Definition wp {A} (m : M A) (Q : result A -> viz -> Prop) (s : viz) : Prop :=
  Q (fst (m s)) (snd (m s)).

(** The postcondition used throughout: [I] holds of the final state whether
    the computation returned or raised, and it returned if [C] holds. *)
Definition inv_post (I : viz -> Prop) (C : Prop) {A}
  : result A -> viz -> Prop :=
  fun r s' => I s' /\ (C -> exists a, r = Ok a).

(** ** What a tick never changes *)

(** The keys of a particle and of a wisp that no code assigns after
    [initialize_particles]. *)
Definition particle_const (p : Particle.t) : R * R * energy_type :=
  (Particle.max_life p, Particle.size p, Particle.energy_type p).

Definition wisp_const (w : Wisp.t) : R * R * R * R :=
  (Wisp.radius w, Wisp.flow_speed w, Wisp.amplitude w, Wisp.frequency w).

(** [keeps s0 s]: [s] differs from [s0] at most in the canvas, the frame
    counter, the Tk root, the generator's cursor, the mutable keys of the
    particles and the angle of the wisps. *)
Record keeps (s0 s : viz) : Prop := mk_keeps {
  keeps_mood : mood_data s = mood_data s0;
  keeps_center_x : center_x s = center_x s0;
  keeps_center_y : center_y s = center_y s0;
  keeps_running : running s = running s0;
  keeps_particles :
    map particle_const (particles s) = map particle_const (particles s0);
  keeps_wisps :
    map wisp_const (energy_wisps s) = map wisp_const (energy_wisps s0);
  keeps_fragments : stress_fragments s = stress_fragments s0;
  keeps_draws : Random.draws (generator s) = Random.draws (generator s0) }.

(** An invariant that only the loop of [update_particle_systems] can
    break: it survives drawing, a draw of the generator, the advance of the
    frame counter, a new timer and the write-back of a wisp whose constant
    keys are those already at that index. *)
Record insensitive (I : viz -> Prop) : Prop := mk_insensitive {
  ins_canvas : forall s c, I s -> I (set_canvas s c);
  ins_advance :
    forall s, I s -> I (set_generator s (Random.advance (generator s)));
  ins_frame : forall s n, I s -> I (set_frame s n);
  ins_after_queue : forall s q, I s -> I (set_after_queue s q);
  ins_wisp :
    forall s i w,
      I s ->
      nth_error (map wisp_const (energy_wisps s)) i = Some (wisp_const w) ->
      I (set_energy_wisps s (list_set i w (energy_wisps s))) }.

(** The distance from a particle to the centre of the window. *)
Definition center_distance (s : viz) (p : Particle.t) : R :=
  let dx := Particle.x p - IZR (center_x s) in
  let dy := Particle.y p - IZR (center_y s) in
  sqrt (dx * dx + dy * dy).

(** What a tick needs in order to return: a palette that is not empty and
    no particle with [max_life] zero. *)
Definition well_formed (s : viz) : Prop :=
  colors (mood_data s) <> []
  /\ Forall (fun p => Particle.max_life p <> 0) (particles s).

(** ** Initialization in closed form *)

(** The generator after [n] more draws. *)
Definition skip (n : nat) (g : Random.t) : Random.t :=
  Random.mk (Random.draws g) (Random.picks g) (n + Random.cursor g).

(** The dicts that the three loops of [initialize_particles] append when
    the generator's cursor is [k]. *)
Definition particle_of_draws (cx cy : Z) (g : Random.t) (k : nat)
  : Particle.t :=
  Particle.mk
    (IZR cx + (-100 + (100 - -100) * Random.draws g k))
    (IZR cy + (-100 + (100 - -100) * Random.draws g (1 + k)))
    (-2 + (2 - -2) * Random.draws g (2 + k))
    (-2 + (2 - -2) * Random.draws g (3 + k))
    (50 + (200 - 50) * Random.draws g (4 + k))
    (50 + (200 - 50) * Random.draws g (5 + k))
    (1 + (4 - 1) * Random.draws g (6 + k))
    (nth (Random.picks g (7 + k) mod 3) [core; stress; economic] core).

Definition wisp_of_draws (wisp_count i : Z) (g : Random.t) (k : nat)
  : Wisp.t :=
  Wisp.mk
    (IZR i * (2 * PI / IZR wisp_count))
    (80 + (150 - 80) * Random.draws g k)
    (0.01 + (0.03 - 0.01) * Random.draws g (1 + k))
    (10 + (30 - 10) * Random.draws g (2 + k))
    (0.5 + (2.0 - 0.5) * Random.draws g (3 + k)).

Definition fragment_of_draws (cx cy : Z) (stress_intensity : R)
           (g : Random.t) (k : nat) : Fragment.t :=
  Fragment.mk
    (IZR cx + (-200 + (200 - -200) * Random.draws g k))
    (IZR cy + (-200 + (200 - -200) * Random.draws g (1 + k)))
    cx cy
    (0.5 + (2.0 - 0.5) * Random.draws g (2 + k))
    (2 + (6 - 2) * Random.draws g (3 + k))
    stress_intensity.

(** One iteration of each loop, as a function of the state. *)
Definition add_particle (s : viz) : viz :=
  set_particles (set_generator s (skip 8 (generator s)))
    (particles s ++
     [particle_of_draws (center_x s) (center_y s) (generator s)
                        (Random.cursor (generator s))]).

Definition add_wisp (wisp_count : Z) (i : nat) (s : viz) : viz :=
  set_energy_wisps (set_generator s (skip 4 (generator s)))
    (energy_wisps s ++
     [wisp_of_draws wisp_count (Z.of_nat i) (generator s)
                    (Random.cursor (generator s))]).

Definition add_fragment (stress_intensity : R) (s : viz) : viz :=
  set_stress_fragments (set_generator s (skip 4 (generator s)))
    (stress_fragments s ++
     [fragment_of_draws (center_x s) (center_y s) stress_intensity
                        (generator s) (Random.cursor (generator s))]).

(** The three counts of [initialize_particles]. *)
Definition particle_count (md : mood) : Z :=
  Z.max 50 (Z.min 200 (150 - stress_level md)).

Definition wisp_count (md : mood) : Z :=
  Z.max 6 (12 - economic_pressure md / 10).

Definition fragment_count (md : mood) : Z :=
  int_of_float (30 * (IZR (stress_level md) / 100)).

(** The state that [__init__] builds from [md] with generator [g]. *)
Definition initialized (md : mood) (g : Random.t) : viz :=
  let k := Random.cursor g in
  let np := Z.to_nat (particle_count md) in
  let nw := Z.to_nat (wisp_count md) in
  let nf := Z.to_nat (fragment_count md) in
  mk_viz false [] 1000 700 [] 0 true 500 350 md
    (map (fun j => particle_of_draws 500 350 g (8 * j + k)) (seq 0 np))
    (map (fun j => wisp_of_draws (wisp_count md) (Z.of_nat j) g
                     (4 * j + (8 * np + k)))
         (seq 0 nw))
    (map (fun j => fragment_of_draws 500 350 (IZR (stress_level md) / 100) g
                     (4 * j + (4 * nw + (8 * np + k))))
         (seq 0 nf))
    (skip (4 * nf + (4 * nw + 8 * np)) g).

(** ** Vocabulary of the statements *)

(** The demo profile of [main]. *)
Definition demo_mood : mood :=
  mk_mood "The Economic Survivor"
          ["#8B0000"; "#B22222"; "#CD5C5C"; "#F08080"; "#FFB6C1"]%string
          75 85 45
          (Some ["economic_psychological_spiral";
                 "survival_mode_activation"]%string).

(** A generator all of whose draws are [u]. *)
Definition steady (u : R) : Random.t :=
  Random.mk (fun _ => u) (fun _ => 0%nat) 0.

(** A generator whose every eighth draw from the fifth on is [hi], the
    others [lo]: the fifth of the eight draws of a new particle is its
    ['life']. *)
Definition every_eighth (hi lo : R) : Random.t :=
  Random.mk (fun k => if (k mod 8 =? 4)%nat then hi else lo)
            (fun _ => 0%nat) 0.

(** A palette entry that line 559 accepts and whose three channel fields
    [int(_, 16)] converts. *)
Definition parseable (c : string) : bool :=
  (String.length c =? 7)%nat
  && match int16 (slice 1 3 c), int16 (slice 3 5 c), int16 (slice 5 7 c) with
     | Some _, Some _, Some _ => true
     | _, _, _ => false
     end.

Definition is_tagged (tag : string) (i : item) : bool :=
  String.eqb (item_tags i) tag.

(** An oval with tag [tag] whose two radii are positive. *)
Definition positive_oval (tag : string) (i : item) : Prop :=
  match i with
  | oval x0 y0 x1 y1 _ t => t = tag /\ 0 < (x1 - x0) / 2 /\ 0 < (y1 - y0) / 2
  | _ => False
  end.

(** The distance from a stress fragment to its target. *)
Definition fragment_distance (f : Fragment.t) : R :=
  sqrt ((IZR (Fragment.target_x f) - Fragment.x f)
          * (IZR (Fragment.target_x f) - Fragment.x f)
        + (IZR (Fragment.target_y f) - Fragment.y f)
          * (IZR (Fragment.target_y f) - Fragment.y f)).

(** A step that takes a fragment nearer to its target. *)
Definition advanced_toward_target (f f' : Fragment.t) : Prop :=
  fragment_distance f' < fragment_distance f.

(** A particle on its last tick, and a state that holds only it. *)
Definition spent_particle : Particle.t :=
  Particle.mk 500 350 0 0 1 100 2 core.

Definition lone_particle (p : Particle.t) : viz :=
  set_particles (fresh demo_mood (steady (1 / 2))) [p].

(** What an oval emitted by [create_mood_stone_core] for the palette [cs]
    is: tagged ["stone_core"], with positive radii, and filled with the
    colour that [ring_color] returns for an entry of the palette. *)
Definition stone_oval (cs : list string) (sm : R) (i : item) : Prop :=
  positive_oval "stone_core" i
  /\ exists base fr ring s,
       In base cs /\ ring_color base sm fr ring s = (Ok (item_fill i), s).

(* ------------------------------------------------------------------ *)
(** ** Vocabulary of the canvas *)

(** [emits P k m]: from any state, [m] only appends to the canvas, at most
    [k] items, each of them satisfying [P], whether it returns or raises. *)
Definition emits {A} (P : item -> Prop) (k : nat) (m : M A) : Prop :=
  forall s,
  exists emitted,
    canvas (exec m s) = canvas s ++ emitted
    /\ (List.length emitted <= k)%nat
    /\ Forall P emitted.

(** [draws k m]: from any state, [m] returns and appends exactly [k] items
    to the canvas. *)
Definition draws {A} (k : nat) (m : M A) : Prop :=
  forall s,
  exists a emitted,
    m s = (Ok a, exec m s)
    /\ canvas (exec m s) = canvas s ++ emitted
    /\ List.length emitted = k.

(** [redraws tag P k L s]: run from [s], the layer [L] replaces the items
    tagged [tag] by at most [k] new ones that satisfy [P], and leaves the
    other items where they are. *)
Definition redraws (tag : string) (P : item -> Prop) (k : nat) (L : M unit)
           (s : viz) : Prop :=
  exists emitted,
    canvas (exec L s)
    = filter (fun i => negb (is_tagged tag i)) (canvas s) ++ emitted
    /\ (List.length emitted <= k)%nat
    /\ Forall (fun i => item_tags i = tag /\ P i) emitted.

(** The number of items with tag [tag]. *)
Definition tagged_count (tag : string) (c : list item) : nat :=
  List.length (filter (is_tagged tag) c).

(** A colour of the form [#rrggbb]: a hash sign and six hexadecimal
    digits. *)
Definition rrggbb (c : string) : bool :=
  match chars c with
  | "#"%char :: r =>
      (List.length r =? 6)%nat
      && forallb (fun d => match hex_value d with
                           | Some _ => true
                           | None => false
                           end) r
  | _ => false
  end.

(** A profile whose palette holds [#rrggbb] colours and whose economic
    pressure keeps the red channel of the pressure lines within a byte
    ([150 * 1.7 = 255]). *)
Definition good_profile (md : mood) : Prop :=
  Forall (fun c => rrggbb c = true) (colors md)
  /\ (economic_pressure md <= 170)%Z.

(** The fill of [i] is an [#rrggbb] colour when the profile is good. *)
Definition well_coloured (md : mood) (i : item) : Prop :=
  good_profile md -> rrggbb (item_fill i) = true.

(** What [create_stress_pattern_overlay] draws for one entry of
    ['patterns']: the 80 dots of the spiral, the 8 spikes, or nothing. *)
Definition pattern_items (pattern : string) : nat :=
  if String.eqb pattern "economic_psychological_spiral" then 80
  else if String.eqb pattern "survival_mode_activation" then 8
  else 0.

Definition overlay_items (md : mood) : nat :=
  list_sum
    (map pattern_items
         (match patterns md with Some l => l | None => [] end)).

(** The lines of [create_economic_pressure_visualization]: one for each
    angle of [range(0, 360, 20)] when the pressure is above 30. *)
Definition pressure_lines (md : mood) : nat :=
  if (30 <? economic_pressure md)%Z then 18 else 0.

(** The number of iterations of the loop of [create_sparkle_field]. *)
Definition num_sparkles (md : mood) : Z :=
  (int_of_float (40 * (IZR (Z.max 0 (100 - stress_level md)) / 100)) + 15)%Z.

(** The eight tags of the layers with the most items each can hold, for a
    state whose collections and profile are those of [s]. *)
Definition layer_budget (s : viz) : list (string * nat) :=
  [ ("background", 6);
    ("economic_pressure", 18);
    ("energy_wisps", List.length (energy_wisps s));
    ("particles", List.length (particles s));
    ("stone_core", 10);
    ("stress_patterns", overlay_items (mood_data s));
    ("sparkles", Z.to_nat (num_sparkles (mood_data s)));
    ("floating_text", 4) ]%string%nat.

Definition canvas_budget (s : viz) : nat :=
  list_sum (map snd (layer_budget s)).

(** A canvas all of whose items carry one of the tags of [budget], with no
    more items under a tag than its budget and every item in [P]. *)
Definition within_budget (budget : list (string * nat)) (P : item -> Prop)
           (c : list item) : Prop :=
  Forall (fun i => P i /\ In (item_tags i) (map fst budget)) c
  /\ Forall (fun tb => (tagged_count (fst tb) c <= snd tb)%nat) budget.

(** A state that keeps [s0] and whose canvas is within the budget of
    [s0], with fills that are colours when the profile is good. *)
Definition tidy (s0 s : viz) : Prop :=
  keeps s0 s
  /\ within_budget (layer_budget s0) (well_coloured (mood_data s0)) (canvas s).

(** [untouched f m]: [m] leaves the component [f] of the state as it is,
    whether it returns or raises. *)
Definition untouched {A X} (f : viz -> X) (m : M A) : Prop :=
  forall s, f (exec m s) = f s.

(** The clock of the animation: the frame counter and the timers
    registered with [root.after]. *)
Definition clock (s : viz) : Z * list Z := (frame s, after_queue s).

(** One particle: the step of its ['life'] over one tick. *)
Definition life_step (p p' : Particle.t) : Prop :=
  particle_const p' = particle_const p
  /\ (0 < Particle.life p - 1 -> Particle.life p' = Particle.life p - 1)
  /\ (Particle.life p - 1 <= 0 -> Particle.life p' = Particle.max_life p).

(** The wisp after [n] ticks. *)
Definition flowed (n : nat) (w : Wisp.t) : Wisp.t :=
  Wisp.set_angle w (Wisp.angle w + INR n * Wisp.flow_speed w).

(** The three channels that lines 561-563 read back from a colour. *)
Definition channels (c : string) : option (Z * Z * Z) :=
  match int16 (slice 1 3 c), int16 (slice 3 5 c), int16 (slice 5 7 c) with
  | Some r, Some g, Some b => Some (r, g, b)
  | _, _, _ => None
  end.

(* ------------------------------------------------------------------ *)
(** ** Vocabulary of the stone core on Tk's canvas *)

(** The index of the palette entry that ring [ring] reads at frame [fr]
    from a palette of [n] entries: line 555. *)
Definition ring_index (n : nat) (fr ring : Z) : nat :=
  Z.to_nat (int_of_float (frem (IZR fr * 0.01 + IZR ring * 0.2) (INR n))).

(** The oval that lines 581-588 create for ring [ring] at frame [fr], with
    the colour [color]. *)
Definition ring_oval (cx cy : Z) (economic_compression : R) (fr ring : Z)
           (color : string) : item :=
  let current_size := ring_size economic_compression fr ring in
  let offset_x := cos (IZR ring * 0.4) * 1 in
  let offset_y := sin (IZR ring * 0.4) * 1 in
  oval (IZR cx - current_size + offset_x)
       (IZR cy - current_size + offset_y)
       (IZR cx + current_size + offset_x)
       (IZR cy + current_size + offset_y)
       color "stone_core".

(** Every entry of the palette that the code does not convert is a colour
    for Tk. *)
Definition raw_entries_accepted (named : string -> bool)
           (cs : list string) : Prop :=
  Forall (fun c => parseable c = false -> Tk.color named c = true) cs.

(** The layers of a tick from [create_mood_stone_core] on. *)
Definition from_stone_core `{Canvas} : M unit :=
  create_mood_stone_core ;;
  create_stress_pattern_overlay ;;
  create_sparkle_field ;;
  create_floating_text ;;
  modify (fun s => set_frame s (frame s + 1)%Z) ;;
  root_after 40.

(** A colour table that knows one name. *)
Definition only_red (c : string) : bool := String.eqb c "red".

(** A profile whose palette has a colour name, a short hex colour and a
    hex colour, and one whose palette is a string of seven characters
    that are not hex digits. *)
Definition named_palette_mood : mood :=
  mk_mood "named" ["red"; "#fff"; "#8B0000"]%string 75 85 45 None.

Definition not_hex_mood : mood :=
  mk_mood "odd" ["#GGGGGG"]%string 75 85 45 None.

(* ------------------------------------------------------------------ *)
(** * Properties *)

(** ** The Python primitives *)

Example format_02x_small : format_02x 5 = "05"%string.
Proof. reflexivity. Qed.

Example format_02x_byte : format_02x 255 = "ff"%string.
Proof. reflexivity. Qed.

Example format_02x_wide : format_02x 256 = "100"%string.
Proof. reflexivity. Qed.

Example format_02x_negative : format_02x (-255) = "-ff"%string.
Proof. reflexivity. Qed.

Example int16_byte : int16 "8B" = Some 139%Z.
Proof. reflexivity. Qed.

Example int16_signed : int16 "-f" = Some (-15)%Z.
Proof. reflexivity. Qed.

Example int16_padded : int16 " f" = Some 15%Z.
Proof. reflexivity. Qed.

Example int16_prefix_only : int16 "0x" = None.
Proof. reflexivity. Qed.

Example int16_prefixed : int16 "0x_1f" = Some 31%Z.
Proof. reflexivity. Qed.

Example int16_trailing_underscore : int16 "f_" = None.
Proof. reflexivity. Qed.

Example int16_not_hex : int16 "GG" = None.
Proof. reflexivity. Qed.

Example range_step_width : List.length (range_step 1000 15) = 67%nat.
Proof. reflexivity. Qed.

Example range_step_angles : range_step 360 20 =
  [0; 20; 40; 60; 80; 100; 120; 140; 160; 180; 200; 220; 240; 260; 280;
   300; 320; 340]%Z.
Proof. reflexivity. Qed.

Lemma range_length (n : Z) : List.length (range n) = Z.to_nat n.
Proof. unfold range. now rewrite length_map, length_seq. Qed.

Lemma frem_bounds (a b : R) : 0 < b -> 0 <= frem a b < b.
Proof.
  intros Hb. unfold frem.
  pose proof (Zfloor_bound (a / b)) as [Hlo Hhi].
  assert (Ha : a = a / b * b) by (field; lra).
  split.
  - apply Rmult_le_compat_r with (r := b) in Hlo; lra.
  - apply Rmult_lt_compat_r with (r := b) in Hhi; lra.
Qed.

Lemma int_of_float_nonneg (r : R) (n : Z) :
  0 <= r < IZR n -> (0 <= int_of_float r < n)%Z.
Proof.
  intros [Hlo Hhi]. unfold int_of_float.
  destruct (Rle_dec 0 r) as [_ | Hn]; [| contradiction].
  pose proof (Zfloor_bound r) as [Hf1 Hf2].
  split.
  - apply (Zfloor_lub 0 r). exact Hlo.
  - apply lt_IZR. lra.
Qed.

Lemma int_of_float_between (r : R) (z : Z) :
  (0 <= z)%Z -> IZR z <= r < IZR z + 1 -> int_of_float r = z.
Proof.
  intros Hz Hr. unfold int_of_float.
  assert (0 <= IZR z) by now apply IZR_le.
  destruct (Rle_dec 0 r); [| lra]. now apply Zfloor_eq.
Qed.

Lemma clamp_channel (n : Z) (f : R) :
  (0 <= n <= 255)%Z -> f = 1 ->
  int_of_float (Rmax 0 (Rmin 255 (IZR n * f))) = n.
Proof.
  intros [H0 H1] ->. rewrite Rmult_1_r.
  apply IZR_le in H0, H1.
  rewrite Rmin_right, Rmax_right by lra.
  apply int_of_float_between; [now apply le_IZR | lra].
Qed.

Lemma truediv_ok (a b : R) : b <> 0 -> truediv a b = Ok (a / b).
Proof.
  intros H. unfold truediv. now destruct (Req_dec_T b 0).
Qed.

Lemma uniform_range (a b u : R) :
  a <= b -> 0 <= u < 1 -> a <= a + (b - a) * u <= b.
Proof. intros Hab [H0 H1]. split; nra. Qed.

Lemma polar_distance (d a : R) :
  0 <= d -> sqrt (d * cos a * (d * cos a) + d * sin a * (d * sin a)) = d.
Proof.
  intros Hd.
  replace (d * cos a * (d * cos a) + d * sin a * (d * sin a))
    with (d * d * ((sin a)² + (cos a)²)) by (unfold Rsqr; ring).
  rewrite sin2_cos2, Rmult_1_r. now apply sqrt_square.
Qed.

(** ** Lists written in place *)

Lemma list_set_length {A} (i : nat) (a : A) (l : list A) :
  List.length (list_set i a l) = List.length l.
Proof.
  revert i. induction l as [| b l IH]; intros [| i]; simpl; auto.
Qed.

Lemma list_set_nth_error {A} (i : nat) (a : A) (l : list A) :
  (i < List.length l)%nat -> nth_error (list_set i a l) i = Some a.
Proof.
  revert i. induction l as [| b l IH]; intros [| i] Hi; simpl in *;
    try lia; auto. apply IH. lia.
Qed.

Lemma list_set_nth_error_other {A} (i j : nat) (a : A) (l : list A) :
  i <> j -> nth_error (list_set i a l) j = nth_error l j.
Proof.
  revert i j. induction l as [| b l IH]; intros [| i] [| j] Hij; simpl;
    auto; try congruence.
Qed.

(** Writing back an element whose image under [f] is the one already at
    that index leaves [map f] as it was. *)
Lemma map_list_set_same {A B} (f : A -> B) (i : nat) (a : A) (l : list A) :
  nth_error (map f l) i = Some (f a) ->
  map f (list_set i a l) = map f l.
Proof.
  revert i. induction l as [| b l IH]; intros [| i] H; simpl in *;
    try discriminate.
  - now inversion H.
  - f_equal. now apply IH.
Qed.

Lemma indexed_nth_error {A} (l : list A) (i : nat) (a : A) :
  In (i, a) (indexed l) -> nth_error l i = Some a.
Proof.
  unfold indexed. intros H.
  assert (G : forall (l : list A) k i a,
             In (i, a) (combine (seq k (List.length l)) l) ->
             (k <= i)%nat /\ nth_error l (i - k) = Some a).
  { clear. induction l as [| b l IH]; intros k i a H; simpl in H.
    - contradiction.
    - destruct H as [H | H].
      + inversion H; subst. split; [lia |]. now rewrite Nat.sub_diag.
      + apply IH in H. destruct H as [Hk Hn]. split; [lia |].
        replace (i - k)%nat with (S (i - S k)) by lia. exact Hn. }
  apply G in H. destruct H as [_ H].
  now replace (i - 0)%nat with i in H by lia.
Qed.

Lemma nth_error_lt {A} (l : list A) (i : nat) (a : A) :
  nth_error l i = Some a -> (i < List.length l)%nat.
Proof. intros H. apply nth_error_Some. congruence. Qed.

Lemma filter_filter_negb {A} (p : A -> bool) (l : list A) :
  filter p (filter (fun a => negb (p a)) l) = [].
Proof.
  induction l as [| a l IH]; [reflexivity |].
  simpl. destruct (p a) eqn:E; simpl; [exact IH |]. now rewrite E.
Qed.

Lemma filter_all {A} (p : A -> bool) (l : list A) :
  Forall (fun a => p a = true) l -> filter p l = l.
Proof.
  induction 1 as [| a l Ha _ IH]; [reflexivity |].
  simpl. now rewrite Ha, IH.
Qed.

(** ** The monad and its weakest preconditions *)

(** Sequencing, when only the invariant is carried on. *)
Lemma wp_bind_inv {A B} (I : viz -> Prop) (C : Prop)
      (m : M A) (k : A -> M B) s :
  wp m (inv_post I C) s ->
  (forall a s', I s' -> wp (k a) (inv_post I C) s') ->
  wp (bind m k) (inv_post I C) s.
Proof.
  unfold wp, bind, inv_post. intros [HI HC] Hk.
  destruct (m s) as [[a | e] s']; simpl in *.
  - apply Hk, HI.
  - split; [exact HI |]. intros c. destruct (HC c) as [a Ha]. discriminate.
Qed.

(** A loop keeps what each turn of its body keeps, and returns when each
    turn returns. *)
Lemma wp_for_each_inv {A} (I : viz -> Prop) (C : Prop) (body : A -> M unit) :
  forall (l : list A) s,
  (forall a s', In a l -> I s' -> wp (body a) (inv_post I C) s') ->
  I s ->
  wp (for_each l body) (inv_post I C) s.
Proof.
  induction l as [| a l IH]; intros s Hbody HI.
  - split; [exact HI | intros _; now exists tt].
  - simpl. apply wp_bind_inv.
    + apply Hbody; [now left | exact HI].
    + intros _ s' HI'. apply IH; [| exact HI'].
      intros b s'' Hb. apply Hbody. now right.
Qed.

Lemma wp_ret_inv {A} (I : viz -> Prop) (C : Prop) (a : A) s :
  I s -> wp (ret a) (inv_post I C) s.
Proof. intros HI. split; [exact HI | intros _; now exists a]. Qed.

Lemma wp_modify_inv (I : viz -> Prop) (C : Prop) (f : viz -> viz) s :
  I (f s) -> wp (modify f) (inv_post I C) s.
Proof. intros HI. split; [exact HI | intros _; now exists tt]. Qed.

Lemma wp_exec {A} (I : viz -> Prop) (C : Prop) (m : M A) s :
  wp m (inv_post I C) s -> I (exec m s).
Proof. intros [HI _]. exact HI. Qed.

Lemma wp_returns {A} (I : viz -> Prop) (C : Prop) (m : M A) s :
  wp m (inv_post I C) s -> C -> exists a, m s = (Ok a, exec m s).
Proof.
  unfold wp, inv_post, exec. intros [_ HC] c. destruct (HC c) as [a Ha].
  exists a. destruct (m s) as [r s']; simpl in *. now subst.
Qed.

Lemma wp_bind_get {A B} (f : viz -> A) (k : A -> M B) Q s :
  wp (k (f s)) Q s -> wp (bind (get f) k) Q s.
Proof. intros H. exact H. Qed.

Lemma wp_bind_lift {A B} (r : result A) (k : A -> M B) Q s :
  match r with
  | Ok a => wp (k a) Q s
  | Raise e => Q (Raise e) s
  end ->
  wp (bind (lift r) k) Q s.
Proof. unfold wp, bind, lift. now destruct r. Qed.

(** Sequencing after a computation known to return. *)
Lemma wp_bind_ok {A B} (m : M A) (k : A -> M B) Q s a :
  m s = (Ok a, exec m s) -> wp (k a) Q (exec m s) -> wp (bind m k) Q s.
Proof. unfold wp, bind, exec. intros ->. simpl. auto. Qed.

Lemma wp_weaken {A} (I J : viz -> Prop) (C : Prop) (m : M A) s :
  (forall s', J s' -> I s') ->
  wp m (inv_post J C) s -> wp m (inv_post I C) s.
Proof. intros HJ [H1 H2]. split; auto. Qed.

Lemma bind_get_eq {A B} (f : viz -> A) (k : A -> M B) s :
  bind (get f) k s = k (f s) s.
Proof. reflexivity. Qed.

Lemma bind_run {A B} (m : M A) (k : A -> M B) s a s' :
  m s = (Ok a, s') -> bind m k s = k a s'.
Proof. unfold bind. now intros ->. Qed.

Lemma exec_bind_ok {A B} (m : M A) (k : A -> M B) s a :
  m s = (Ok a, exec m s) -> exec (bind m k) s = exec (k a) (exec m s).
Proof. unfold exec, bind. now intros ->. Qed.

Lemma exec_bind_cases {A B} (m : M A) (k : A -> M B) s :
  exec (bind m k) s = exec m s
  \/ exists a, exec (bind m k) s = exec (k a) (exec m s).
Proof.
  unfold exec, bind. destruct (m s) as [[a | e] s1]; cbn [snd].
  - right. now exists a.
  - now left.
Qed.

Lemma layer_step {B} (I : viz -> Prop) (L : M unit) (k : unit -> M B) s :
  wp L (inv_post I True) s ->
  exec (bind L k) s = exec (k tt) (exec L s) /\ I (exec L s).
Proof.
  intros W. split; [| exact (wp_exec _ _ _ _ W)].
  destruct (wp_returns _ _ _ _ W Logic.I) as [[] E].
  now apply exec_bind_ok.
Qed.

(** ** What a tick never changes *)

Lemma keeps_refl s : keeps s s.
Proof. now constructor. Qed.

Lemma keeps_trans s0 s1 s2 : keeps s0 s1 -> keeps s1 s2 -> keeps s0 s2.
Proof.
  intros [] []. constructor; etransitivity; eassumption.
Qed.

Lemma keeps_set_canvas s0 s c : keeps s0 s -> keeps s0 (set_canvas s c).
Proof. intros []. now constructor. Qed.

Lemma keeps_set_frame s0 s n : keeps s0 s -> keeps s0 (set_frame s n).
Proof. intros []. now constructor. Qed.

Lemma keeps_set_after_queue s0 s q :
  keeps s0 s -> keeps s0 (set_after_queue s q).
Proof. intros []. now constructor. Qed.

Lemma keeps_advance s0 s :
  keeps s0 s -> keeps s0 (set_generator s (Random.advance (generator s))).
Proof. intros []. now constructor. Qed.

Lemma keeps_store_particle s0 s i p :
  keeps s0 s ->
  nth_error (map particle_const (particles s0)) i = Some (particle_const p) ->
  keeps s0 (set_particles s (list_set i p (particles s))).
Proof.
  intros [] Hp. constructor; simpl; auto.
  rewrite map_list_set_same; congruence.
Qed.

Lemma keeps_lengths s0 s :
  keeps s0 s ->
  List.length (particles s) = List.length (particles s0)
  /\ List.length (energy_wisps s) = List.length (energy_wisps s0)
  /\ List.length (stress_fragments s) = List.length (stress_fragments s0).
Proof.
  intros K. repeat split.
  - rewrite <- (length_map particle_const (particles s)).
    rewrite (keeps_particles _ _ K). apply length_map.
  - rewrite <- (length_map wisp_const (energy_wisps s)), (keeps_wisps _ _ K).
    apply length_map.
  - now rewrite (keeps_fragments _ _ K).
Qed.

Lemma well_formed_keeps s0 s : keeps s0 s -> well_formed s0 -> well_formed s.
Proof.
  intros K [Hc Hp]. split.
  - now rewrite (keeps_mood _ _ K).
  - pose proof (keeps_particles _ _ K) as E.
    rewrite Forall_forall in *. intros p Hin.
    apply (in_map particle_const) in Hin. rewrite E in Hin.
    apply in_map_iff in Hin. destruct Hin as (q & Hq & Hin).
    specialize (Hp q Hin). unfold particle_const in Hq. congruence.
Qed.

Lemma valid_keeps s0 s :
  keeps s0 s -> Random.valid (generator s0) -> Random.valid (generator s).
Proof.
  intros K Hv k. unfold Random.valid in Hv.
  rewrite (keeps_draws _ _ K). apply Hv.
Qed.

Lemma center_distance_keeps s0 s p :
  keeps s0 s -> center_distance s p = center_distance s0 p.
Proof.
  intros K. unfold center_distance.
  now rewrite (keeps_center_x _ _ K), (keeps_center_y _ _ K).
Qed.

Lemma nth_error_const (s : viz) (i : nat) (p : Particle.t) :
  nth_error (particles s) i = Some p ->
  nth_error (map particle_const (particles s)) i = Some (particle_const p).
Proof. apply map_nth_error. Qed.

Lemma keeps_insensitive s0 : insensitive (keeps s0).
Proof.
  constructor; intros.
  - now apply keeps_set_canvas.
  - now apply keeps_advance.
  - now apply keeps_set_frame.
  - now apply keeps_set_after_queue.
  - destruct H. constructor; simpl; auto.
    rewrite map_list_set_same; congruence.
Qed.

Lemma particles_insensitive (P : list Particle.t -> Prop) :
  insensitive (fun s => P (particles s)).
Proof. constructor; intros; assumption. Qed.

Lemma insensitive_and (I J : viz -> Prop) :
  insensitive I -> insensitive J -> insensitive (fun s => I s /\ J s).
Proof.
  intros HI HJ. constructor.
  - intros s c [Hi Hj]. split;
      [apply (ins_canvas I HI) | apply (ins_canvas J HJ)]; assumption.
  - intros s [Hi Hj]. split;
      [apply (ins_advance I HI) | apply (ins_advance J HJ)]; assumption.
  - intros s n [Hi Hj]. split;
      [apply (ins_frame I HI) | apply (ins_frame J HJ)]; assumption.
  - intros s q [Hi Hj]. split;
      [apply (ins_after_queue I HI) | apply (ins_after_queue J HJ)];
      assumption.
  - intros s i w [Hi Hj] Hn. split;
      [apply (ins_wisp I HI) | apply (ins_wisp J HJ)]; assumption.
Qed.

Lemma wisps_insensitive (cs : list (R * R * R * R)) :
  insensitive (fun s => map wisp_const (energy_wisps s) = cs).
Proof.
  constructor; intros; try assumption.
  cbn [energy_wisps set_energy_wisps]. rewrite map_list_set_same; congruence.
Qed.

(** *** The primitives *)

Section Primitives.
Variable I : viz -> Prop.
Variable C : Prop.
Hypothesis HI : insensitive I.

Lemma wp_get_ins {A} (f : viz -> A) s :
  I s -> wp (get f) (inv_post I C) s.
Proof. intros H. split; [exact H | intros _; now eexists]. Qed.

Lemma wp_uniform_ins (a b : R) s :
  I s -> wp (uniform a b) (inv_post I C) s.
Proof.
  intros H. split; [now apply (ins_advance I HI) | intros _; now eexists].
Qed.

Lemma wp_canvas_delete_ins tag s :
  I s -> wp (canvas_delete tag) (inv_post I C) s.
Proof. intros H. apply wp_modify_inv. now apply (ins_canvas I HI). Qed.

Lemma wp_canvas_create_ins i s :
  I s -> wp (canvas_create i) (inv_post I C) s.
Proof. intros H. apply wp_modify_inv. now apply (ins_canvas I HI). Qed.

Lemma wp_store_wisp_ins i w s :
  nth_error (map wisp_const (energy_wisps s)) i = Some (wisp_const w) ->
  I s -> wp (store_wisp i w) (inv_post I C) s.
Proof. intros Hw H. apply wp_modify_inv. now apply (ins_wisp I HI). Qed.

End Primitives.

(** One step of symbolic execution of a computation under an insensitive
    invariant, chosen by the head of the computation.  The hypothesis that
    the invariant is insensitive is taken from the context. *)
Ltac wp_step :=
  cbv beta zeta;
  lazymatch goal with
  | |- wp (if ?c then _ else _) _ _ => destruct c
  | |- wp (match ?c with Some _ => _ | None => _ end) _ _ => destruct c
  | |- wp (ret _) _ _ => apply wp_ret_inv
  | |- wp (get _) _ _ => apply wp_get_ins
  | |- wp (uniform _ _) _ _ => apply wp_uniform_ins; [assumption |]
  | |- wp (canvas_delete _) _ _ => apply wp_canvas_delete_ins; [assumption |]
  | |- wp (canvas_create _) _ _ => apply wp_canvas_create_ins; [assumption |]
  | |- wp (modify _) _ _ => apply wp_modify_inv
  | |- wp (bind (get _) _) _ _ => apply wp_bind_get
  | |- wp (bind _ _) _ _ => apply wp_bind_inv; [| intros ? ? ?]
  | |- wp (for_each _ _) _ _ => apply wp_for_each_inv; [intros ? ? ? ? |]
  end.

Ltac wp_auto := repeat (wp_step; try assumption).

(** *** The layers that only draw *)

Section Layers.
Variable I : viz -> Prop.
Variable C : Prop.
Hypothesis HI : insensitive I.

Lemma create_holographic_background_inv s :
  I s -> wp create_holographic_background (inv_post I C) s.
Proof. intros H. unfold create_holographic_background. wp_auto. Qed.

Lemma create_economic_pressure_visualization_inv s :
  I s -> wp create_economic_pressure_visualization (inv_post I C) s.
Proof. intros H. unfold create_economic_pressure_visualization. wp_auto. Qed.

Lemma create_stress_pattern_overlay_inv s :
  I s -> wp create_stress_pattern_overlay (inv_post I C) s.
Proof. intros H. unfold create_stress_pattern_overlay. wp_auto. Qed.

Lemma create_floating_text_inv s :
  I s -> wp create_floating_text (inv_post I C) s.
Proof. intros H. unfold create_floating_text. wp_auto. Qed.

Lemma create_sparkle_field_inv s :
  I s -> wp create_sparkle_field (inv_post I C) s.
Proof. intros H. unfold create_sparkle_field. wp_auto. Qed.

Lemma advance_frame_inv s :
  I s ->
  wp (modify (fun s => set_frame s (frame s + 1)%Z) ;; root_after 40)
     (inv_post I C) s.
Proof.
  intros H. wp_step.
  - wp_step. now apply (ins_frame I HI).
  - unfold root_after. wp_step. now apply (ins_after_queue I HI).
Qed.

End Layers.

(** *** The wisps *)

Lemma create_energy_flow_wisps_inv (I : viz -> Prop) (C : Prop) s :
  insensitive I ->
  I s -> wp create_energy_flow_wisps (inv_post I C) s.
Proof.
  intros HI H. unfold create_energy_flow_wisps.
  wp_step; [wp_step; assumption |]. wp_step.
  match goal with
  | |- wp (for_each (indexed ?ws) _) _ ?s1 =>
      set (J := fun s => I s /\ map wisp_const (energy_wisps s)
                                = map wisp_const ws);
      assert (HJ : insensitive J)
        by (apply insensitive_and; [exact HI | apply wisps_insensitive]);
      assert (Js : J s1) by (split; [assumption | reflexivity])
  end.
  apply (wp_weaken I J); [now intros ? [] |].
  wp_step; [| assumption].
  match goal with
  | Hin : In ?a (indexed _), HJs : J ?s2 |- _ =>
      destruct a as [i w]; cbn [fst snd];
      apply indexed_nth_error in Hin;
      apply (map_nth_error wisp_const) in Hin;
      rewrite <- (proj2 HJs) in Hin
  end.
  wp_step.
  - apply wp_store_wisp_ins; assumption.
  - wp_auto.
Qed.

(** ** The update of one particle *)

Lemma pull_distance_pos (dx dy : R) : 0 < pull_distance dx dy.
Proof.
  unfold pull_distance. destruct (Rlt_dec 0 (dx * dx + dy * dy)) as [H | H].
  - now apply sqrt_lt_R0.
  - lra.
Qed.

Lemma pull_distance_at_center (dx dy : R) :
  dx * dx + dy * dy = 0 -> pull_distance dx dy = 1.
Proof.
  intros H. unfold pull_distance.
  destruct (Rlt_dec 0 (dx * dx + dy * dy)) as [H' | _]; [lra | reflexivity].
Qed.

Lemma truediv_pull (a dx dy : R) :
  truediv a (pull_distance dx dy) = Ok (a / pull_distance dx dy).
Proof.
  apply truediv_ok. pose proof (pull_distance_pos dx dy). lra.
Qed.

(** Unfolds the monad, the primitives and the record accessors. *)
Ltac run_m :=
  cbv [exec bind get lift store_particle store_wisp modify uniform random ret
       raise canvas_create canvas_delete
       Particle.set_x Particle.set_y Particle.set_vx Particle.set_vy
       Particle.set_life Particle.x Particle.y Particle.vx Particle.vy
       Particle.life Particle.max_life Particle.size Particle.energy_type].

(** Lines 621-645 return.  They take 1 off the life, leave the constant
    keys and the canvas alone and write the particle back at its index. *)
Lemma physics_returns (i : nat) (p : Particle.t) (s : viz) :
  exists p',
    physics i p s = (Ok p', exec (physics i p) s)
    /\ Particle.life p' = Particle.life p - 1
    /\ particle_const p' = particle_const p
    /\ canvas (exec (physics i p) s) = canvas s
    /\ ((i < List.length (particles s))%nat ->
        nth_error (particles (exec (physics i p) s)) i = Some p')
    /\ forall s0,
         keeps s0 s ->
         nth_error (map particle_const (particles s0)) i
           = Some (particle_const p) ->
         keeps s0 (exec (physics i p) s).
Proof.
  destruct p as [x y vx vy life max_life size et].
  unfold physics. run_m. rewrite !truediv_pull.
  eexists. split; [reflexivity |]. split; [reflexivity |].
  split; [reflexivity |]. split; [reflexivity |]. split.
  - intros Hi. cbn. apply list_set_nth_error.
    now rewrite !list_set_length.
  - intros s0 H Hi. cbn [snd].
    repeat first [ apply keeps_advance | apply keeps_store_particle ];
      assumption.
Qed.

(** Lines 649-655 return, with a life of ['max_life'], a position at
    [spawn_distance] from the centre and fresh velocities. *)
Lemma respawn_returns (i : nat) (p : Particle.t) (s : viz) :
  exists p',
    respawn i p s = (Ok p', exec (respawn i p) s)
    /\ Particle.life p' = Particle.max_life p
    /\ particle_const p' = particle_const p
    /\ (Random.valid (generator s) ->
        150 <= center_distance s p' <= 250
        /\ -1 <= Particle.vx p' <= 1
        /\ -1 <= Particle.vy p' <= 1)
    /\ canvas (exec (respawn i p) s) = canvas s
    /\ ((i < List.length (particles s))%nat ->
        nth_error (particles (exec (respawn i p) s)) i = Some p')
    /\ forall s0,
         keeps s0 s ->
         nth_error (map particle_const (particles s0)) i
           = Some (particle_const p) ->
         keeps s0 (exec (respawn i p) s).
Proof.
  destruct p as [x y vx vy life max_life size et].
  unfold respawn, center_distance. run_m.
  eexists. split; [reflexivity |]. split; [reflexivity |].
  split; [reflexivity |]. split; [| split; [reflexivity | split]].
  - intros Hv. cbn.
    set (g := generator s) in *.
    set (d := 150 + (250 - 150) * _).
    set (a := 0 + (2 * PI - 0) * _).
    assert (Hd : 150 <= d <= 250) by (apply uniform_range; [lra | apply Hv]).
    replace (IZR (center_x s) + d * cos a - IZR (center_x s))
      with (d * cos a) by ring.
    replace (IZR (center_y s) + d * sin a - IZR (center_y s))
      with (d * sin a) by ring.
    rewrite polar_distance by lra.
    split; [exact Hd |].
    split; apply uniform_range; try lra; apply Hv.
  - intros Hi. cbn. now apply list_set_nth_error.
  - intros s0 H Hn. cbn [snd].
    repeat first [ apply keeps_advance | apply keeps_store_particle ];
      assumption.
Qed.

Lemma draw_particle_particles (p : Particle.t) (s : viz) :
  particles (exec (draw_particle p) s) = particles s.
Proof.
  unfold draw_particle, exec, bind, lift, truediv.
  destruct (Req_dec_T (Particle.max_life p) 0); [reflexivity |].
  destruct (Rlt_dec 0.5 _); reflexivity.
Qed.

Lemma draw_particle_keeps (p : Particle.t) (s0 s : viz) :
  keeps s0 s -> keeps s0 (exec (draw_particle p) s).
Proof.
  intros K. unfold draw_particle, exec, bind, lift, truediv.
  destruct (Req_dec_T (Particle.max_life p) 0); [exact K |].
  destruct (Rlt_dec 0.5 _); [| exact K].
  now apply keeps_set_canvas.
Qed.

(** What [draw_particle] puts on the canvas when it draws. *)
Lemma draw_particle_canvas (p : Particle.t) (s : viz) :
  Particle.max_life p <> 0 ->
  0.5 < Particle.size p * (Particle.life p / Particle.max_life p) ->
  exists x0 y0 x1 y1 c,
    canvas (exec (draw_particle p) s)
    = canvas s ++ [oval x0 y0 x1 y1 c "particles"]
    /\ (x1 - x0) / 2
       = Particle.size p * (Particle.life p / Particle.max_life p).
Proof.
  intros Hm Hr. unfold draw_particle, exec, bind, lift.
  rewrite (truediv_ok _ _ Hm).
  destruct (Rlt_dec 0.5 _) as [_ | N]; [| contradiction].
  do 5 eexists. split; [reflexivity |]. field. exact Hm.
Qed.

(** The loop body keeps [keeps s0]; it returns unless ['max_life'] is
    zero. *)
Lemma update_particle_keeps (s0 : viz) (C : Prop) (i : nat) (p : Particle.t) s :
  keeps s0 s ->
  nth_error (map particle_const (particles s0)) i = Some (particle_const p) ->
  (C -> Particle.max_life p <> 0) ->
  wp (update_particle i p) (inv_post (keeps s0) C) s.
Proof.
  intros H Hn HC. pose proof (keeps_insensitive s0) as HI.
  unfold update_particle.
  destruct (physics_returns i p s) as (p1 & E1 & _ & Hc1 & _ & _ & K1).
  apply (wp_bind_ok _ _ _ _ _ E1).
  specialize (K1 s0 H Hn). rewrite <- Hc1 in Hn.
  set (s1 := exec (physics i p) s) in *.
  assert (exists p2 s2,
    (if Rle_dec (Particle.life p1) 0 then respawn i p1 else ret p1) s1
      = (Ok p2, s2)
    /\ particle_const p2 = particle_const p /\ keeps s0 s2)
    as (p2 & s2 & E2 & Hc2 & K2).
  { destruct (Rle_dec (Particle.life p1) 0).
    - destruct (respawn_returns i p1 s1)
        as (p2 & E2 & _ & Hc2 & _ & _ & _ & K2).
      exists p2, (exec (respawn i p1) s1).
      split; [exact E2 |]. split; [congruence |]. now apply K2.
    - exists p1, s1. split; [reflexivity |]. split; assumption. }
  assert (E2' : exec (if Rle_dec (Particle.life p1) 0 then respawn i p1
                      else ret p1) s1 = s2) by (unfold exec; now rewrite E2).
  rewrite <- E2' in E2, K2.
  apply (wp_bind_ok _ _ _ _ _ E2).
  unfold draw_particle. apply wp_bind_lift.
  unfold truediv. destruct (Req_dec_T (Particle.max_life p2) 0) as [Z | NZ].
  - split; [exact K2 |]. intros c. exfalso. apply (HC c).
    unfold particle_const in Hc2. congruence.
  - wp_auto.
Qed.

Lemma update_particle_exec_keeps (s : viz) (i : nat) (p : Particle.t) :
  nth_error (particles s) i = Some p ->
  keeps s (exec (update_particle i p) s).
Proof.
  intros Hn.
  apply (wp_exec _ False).
  apply update_particle_keeps;
    [apply keeps_refl | now apply nth_error_const | contradiction].
Qed.

Lemma update_particle_returns (s : viz) (i : nat) (p : Particle.t) :
  nth_error (particles s) i = Some p ->
  Particle.max_life p <> 0 ->
  update_particle i p s = (Ok tt, exec (update_particle i p) s).
Proof.
  intros Hn Hm.
  assert (W : wp (update_particle i p) (inv_post (keeps s) True) s).
  { apply update_particle_keeps;
      [apply keeps_refl | now apply nth_error_const | auto]. }
  destruct (wp_returns _ _ _ _ W I) as [[] E]. exact E.
Qed.

(** The loop body for index [i] leaves every other index alone. *)
Lemma update_particle_other (s : viz) (i j : nat) (p : Particle.t) :
  j <> i ->
  nth_error (particles (exec (update_particle i p) s)) j
  = nth_error (particles s) j.
Proof.
  intros Hj.
  destruct (physics_returns i p s) as (p1 & E1 & _).
  unfold update_particle. rewrite (exec_bind_ok _ _ _ _ E1).
  assert (H1 : nth_error (particles (exec (physics i p) s)) j
               = nth_error (particles s) j).
  { clear E1. destruct p as [x y vx vy life max_life size et].
    unfold physics. run_m. rewrite !truediv_pull. cbn.
    rewrite !list_set_nth_error_other; auto. }
  set (s1 := exec (physics i p) s) in *.
  destruct (Rle_dec (Particle.life p1) 0).
  - destruct (respawn_returns i p1 s1) as (p2 & E2 & _).
    rewrite (exec_bind_ok _ _ _ _ E2), draw_particle_particles.
    rewrite <- H1. clear E2.
    destruct p1 as [x y vx vy life max_life size et].
    unfold respawn. run_m. cbn.
    rewrite !list_set_nth_error_other; auto.
  - unfold exec at 1, bind, ret. cbn [fst snd].
    fold (exec (draw_particle p1) s1).
    now rewrite draw_particle_particles.
Qed.

(** The loop body on a particle whose life runs out: it is rewritten at
    its index. *)
Lemma update_particle_respawns (s : viz) (i : nat) (p : Particle.t) :
  Random.valid (generator s) ->
  nth_error (particles s) i = Some p ->
  Particle.life p - 1 <= 0 ->
  let s' := exec (update_particle i p) s in
  exists p',
    nth_error (particles s') i = Some p'
    /\ List.length (particles s') = List.length (particles s)
    /\ particle_const p' = particle_const p
    /\ Particle.life p' = Particle.max_life p
    /\ 150 <= center_distance s' p' <= 250
    /\ -1 <= Particle.vx p' <= 1
    /\ -1 <= Particle.vy p' <= 1.
Proof.
  intros Hv Hn Hl s'. subst s'.
  pose proof (nth_error_lt _ _ _ Hn) as Hi.
  pose proof (nth_error_const _ _ _ Hn) as Hc.
  destruct (physics_returns i p s) as (p1 & E1 & L1 & C1 & _ & _ & K1).
  specialize (K1 s (keeps_refl s) Hc).
  unfold update_particle. rewrite (exec_bind_ok _ _ _ _ E1).
  set (s1 := exec (physics i p) s) in *.
  destruct (Rle_dec (Particle.life p1) 0) as [_ | N]; [| lra].
  destruct (respawn_returns i p1 s1)
    as (p2 & E2 & L2 & C2 & V2 & _ & N2 & K2).
  rewrite <- C1 in Hc. specialize (K2 s K1 Hc).
  rewrite (exec_bind_ok _ _ _ _ E2).
  set (s2 := exec (respawn i p1) s1) in *.
  pose proof (draw_particle_keeps p2 s s2 K2) as K3.
  exists p2. rewrite draw_particle_particles.
  destruct (V2 (valid_keeps _ _ K1 Hv)) as (D & VX & VY).
  split.
  { apply N2. now rewrite (proj1 (keeps_lengths _ _ K1)). }
  split; [apply (keeps_lengths _ _ K2) |].
  split; [congruence |]. split.
  { rewrite L2. unfold particle_const in C1. congruence. }
  split.
  { now rewrite (center_distance_keeps _ _ _ K3),
                <- (center_distance_keeps _ _ p2 K1). }
  split; assumption.
Qed.

(** The loop body on a particle with life to spare: no respawn, the
    particle of [physics] is the one drawn. *)
Lemma update_particle_alive (s : viz) (i : nat) (p : Particle.t) :
  nth_error (particles s) i = Some p ->
  0 < Particle.life p - 1 ->
  exists p1,
    exec (update_particle i p) s
    = exec (draw_particle p1) (exec (physics i p) s)
    /\ canvas (exec (physics i p) s) = canvas s
    /\ nth_error (particles (exec (update_particle i p) s)) i = Some p1
    /\ Particle.life p1 = Particle.life p - 1
    /\ particle_const p1 = particle_const p.
Proof.
  intros Hn Hl.
  pose proof (nth_error_lt _ _ _ Hn) as Hi.
  destruct (physics_returns i p s) as (p1 & E1 & L1 & C1 & V1 & N1 & _).
  exists p1. unfold update_particle. rewrite (exec_bind_ok _ _ _ _ E1).
  destruct (Rle_dec (Particle.life p1) 0) as [Hle | _]; [lra |].
  unfold exec at 1 3, bind, ret. cbn [fst snd].
  fold (exec (draw_particle p1) (exec (physics i p) s)).
  rewrite draw_particle_particles.
  repeat split; auto.
Qed.

(** ** The loop over the particles *)

Lemma update_particle_systems_keeps (s0 : viz) (C : Prop) s :
  (C -> Forall (fun p => Particle.max_life p <> 0) (particles s0)) ->
  keeps s0 s -> wp update_particle_systems (inv_post (keeps s0) C) s.
Proof.
  intros HC H. pose proof (keeps_insensitive s0) as HI.
  unfold update_particle_systems.
  wp_step; [wp_step; assumption |].
  wp_step. wp_step; [| assumption].
  match goal with
  | Hin : In ?a (indexed (particles ?s1)), K1 : keeps s0 ?s1 |- _ =>
      destruct a as [i p]; cbn [fst snd];
      apply indexed_nth_error in Hin;
      apply (map_nth_error particle_const) in Hin;
      rewrite (keeps_particles _ _ K1) in Hin;
      rename Hin into Hn
  end.
  apply update_particle_keeps; [assumption | exact Hn |].
  intros c. specialize (HC c).
  apply nth_error_In in Hn. apply in_map_iff in Hn.
  destruct Hn as (q & Hq & Hin).
  rewrite Forall_forall in HC. specialize (HC q Hin).
  unfold particle_const in Hq. congruence.
Qed.

(** The loop from index [k] on leaves the indices below [k] alone. *)
Lemma particle_loop_below (l : list Particle.t) :
  forall (k m : nat) (s : viz),
    (m < k)%nat ->
    nth_error
      (particles
         (exec (for_each (combine (seq k (List.length l)) l)
                         (fun ip => update_particle (fst ip) (snd ip))) s)) m
    = nth_error (particles s) m.
Proof.
  induction l as [| q l IH]; intros k m s Hm; [reflexivity |].
  cbn [List.length seq combine for_each]. unfold exec, bind.
  pose proof (update_particle_other s k m q ltac:(lia)) as H0.
  unfold exec in H0. cbn [fst snd].
  destruct (update_particle k q s) as [[[] | e] s1]; cbn [snd] in *.
  - rewrite <- H0. apply (IH (S k) m s1). lia.
  - exact H0.
Qed.

(** If the particles of [l] sit at the indices from [k] on, the loop
    leaves at index [k + j] what the body makes of the [j]-th of them, in
    some state [s_j] that [keeps] relates to the first. *)
Lemma particle_loop_at (l : list Particle.t) :
  forall (k : nat) (s : viz),
    (forall j q, nth_error l j = Some q ->
                 nth_error (particles s) (k + j) = Some q) ->
    Forall (fun q => Particle.max_life q <> 0) l ->
    forall j q,
      nth_error l j = Some q ->
      exists s_j,
        keeps s s_j
        /\ nth_error (particles s_j) (k + j) = Some q
        /\ nth_error
             (particles
                (exec (for_each (combine (seq k (List.length l)) l)
                         (fun ip => update_particle (fst ip) (snd ip))) s))
             (k + j)
           = nth_error (particles (exec (update_particle (k + j) q) s_j))
                       (k + j).
Proof.
  induction l as [| q0 l IH]; intros k s Hs Hm j q Hj.
  - destruct j; discriminate.
  - cbn [List.length seq combine for_each].
    assert (H0 : nth_error (particles s) k = Some q0).
    { specialize (Hs 0%nat q0 eq_refl). now rewrite Nat.add_0_r in Hs. }
    inversion Hm as [| ? ? Hq0 Hl]; subst.
    pose proof (update_particle_returns s k q0 H0 Hq0) as E.
    rewrite (exec_bind_ok _ _ _ _ E). cbn [fst snd].
    set (s1 := exec (update_particle k q0) s) in *.
    destruct j as [| j].
    + inversion Hj; subst q. rewrite Nat.add_0_r.
      exists s. split; [apply keeps_refl |]. split; [exact H0 |].
      apply particle_loop_below. lia.
    + cbn [nth_error] in Hj.
      destruct (IH (S k) s1) with (j := j) (q := q) as (s_j & K & N & R);
        auto.
      { intros j' q' Hj'. subst s1.
        rewrite update_particle_other by lia.
        replace (S k + j')%nat with (k + S j')%nat by lia.
        now apply Hs. }
      replace (k + S j)%nat with (S k + j)%nat by lia.
      exists s_j. split; [| split; assumption].
      eapply keeps_trans; [| exact K].
      now apply update_particle_exec_keeps.
Qed.

Lemma update_particle_systems_at (s : viz) (i : nat) (p : Particle.t) :
  Forall (fun q => Particle.max_life q <> 0) (particles s) ->
  nth_error (particles s) i = Some p ->
  exists s_i,
    keeps s s_i
    /\ nth_error (particles s_i) i = Some p
    /\ nth_error (particles (exec update_particle_systems s)) i
       = nth_error (particles (exec (update_particle i p) s_i)) i.
Proof.
  intros Hm Hn. unfold update_particle_systems.
  set (s1 := exec (canvas_delete "particles") s).
  assert (K1 : keeps s s1)
    by (apply keeps_set_canvas, keeps_refl).
  destruct (particle_loop_at (particles s1) 0 s1) with (j := i) (q := p)
    as (s_i & K & N & E); auto.
  exists s_i. split; [eapply keeps_trans; eassumption |].
  split; [exact N | exact E].
Qed.

(** ** The stone core *)

Lemma ring_color_returns (base_color : string) (sm : R) (fr ring : Z) s :
  exists c, ring_color base_color sm fr ring s = (Ok c, s).
Proof.
  unfold ring_color, try_except, bind, ret, raise.
  destruct (String.length base_color =? 7)%nat; [| now eexists].
  destruct (int16 (slice 1 3 base_color)); [| now eexists].
  destruct (int16 (slice 3 5 base_color)); [| now eexists].
  destruct (int16 (slice 5 7 base_color)); now eexists.
Qed.

Lemma ring_color_raw (c : string) (sm : R) (fr ring : Z) (s : viz) :
  parseable c = false -> ring_color c sm fr ring s = (Ok c, s).
Proof.
  unfold parseable, ring_color, try_except, bind, ret, raise.
  destruct (String.length c =? 7)%nat; [| reflexivity].
  destruct (int16 (slice 1 3 c)); [| reflexivity].
  destruct (int16 (slice 3 5 c)); [| reflexivity].
  destruct (int16 (slice 5 7 c)); [discriminate | reflexivity].
Qed.

Lemma ring_color_state (c : string) (sm : R) (fr ring : Z) (s s' : viz) col :
  ring_color c sm fr ring s = (Ok col, s) ->
  ring_color c sm fr ring s' = (Ok col, s').
Proof.
  unfold ring_color, try_except, bind, ret, raise.
  destruct (String.length c =? 7)%nat; [| congruence].
  destruct (int16 (slice 1 3 c)); [| congruence].
  destruct (int16 (slice 3 5 c)); [| congruence].
  destruct (int16 (slice 5 7 c)); congruence.
Qed.

Example parseable_hex : parseable "#8B0000" = true.
Proof. reflexivity. Qed.

Example parseable_no_hash : parseable "x8B0000" = true.
Proof. reflexivity. Qed.

Example parseable_signed : parseable "#+f-f f" = true.
Proof. reflexivity. Qed.

Example parseable_name : parseable "red" = false.
Proof. reflexivity. Qed.

Example parseable_short : parseable "#fff" = false.
Proof. reflexivity. Qed.

Example parseable_not_hex : parseable "#GGGGGG" = false.
Proof. reflexivity. Qed.

(** A parseable entry is rewritten even when stress is zero: the hex
    digits come back in lower case. *)
Example ring_color_calm (fr ring : Z) (s : viz) :
  ring_color "#8B0000" 0 fr ring s = (Ok "#8b0000"%string, s).
Proof.
  unfold ring_color, try_except, bind, ret.
  change (String.length "#8B0000" =? 7)%nat with true. cbv iota.
  change (int16 (slice 1 3 "#8B0000")) with (Some 139%Z).
  change (int16 (slice 3 5 "#8B0000")) with (Some 0%Z).
  change (int16 (slice 5 7 "#8B0000")) with (Some 0%Z).
  cbv beta iota.
  rewrite (clamp_channel 139), !(clamp_channel 0) by (lia || ring).
  reflexivity.
Qed.

(** One ring keeps an insensitive invariant and returns unless the
    palette is empty. *)
Lemma stone_ring_inv (I : viz -> Prop) (C : Prop)
      (cs : list string) (sm ec : R) (ring : Z) s :
  insensitive I ->
  (C -> cs <> []) ->
  I s -> wp (stone_ring cs sm ec ring) (inv_post I C) s.
Proof.
  intros HI HC H. unfold stone_ring.
  do 3 wp_step. apply wp_bind_lift. unfold fmod.
  set (n := INR _). set (x := IZR _ * _ + _).
  destruct (Req_dec_T n 0) as [Z | NZ].
  { split; [assumption |]. intros c. exfalso. apply (HC c).
    subst n. apply (INR_eq _ 0%nat) in Z. now apply length_zero_iff_nil. }
  assert (Hn : 0 < n).
  { subst n. pose proof (pos_INR (List.length cs)). lra. }
  pose proof (frem_bounds x n Hn) as Hb.
  assert (Hi : (0 <= int_of_float (frem x n) < Z.of_nat (List.length cs))%Z).
  { apply int_of_float_nonneg. now rewrite <- INR_IZR_INZ. }
  clear Hb.
  destruct (nth_error _ _) as [base_color |] eqn:E.
  2:{ apply nth_error_None in E. lia. }
  wp_step; [now wp_step |].
  match goal with
  | |- wp (bind (ring_color ?b ?m ?f ?r) _) _ ?s1 =>
      destruct (ring_color_returns b m f r s1) as [c Ec];
      assert (Ex : exec (ring_color b m f r) s1 = s1)
        by (unfold exec; now rewrite Ec);
      rewrite <- Ex in Ec at 2;
      apply (wp_bind_ok _ _ _ _ _ Ec); rewrite Ex
  end.
  wp_auto.
Qed.

Lemma create_mood_stone_core_inv (I : viz -> Prop) (C : Prop) s :
  insensitive I ->
  (forall s', I s' -> C -> colors (mood_data s') <> []) ->
  I s -> wp create_mood_stone_core (inv_post I C) s.
Proof.
  intros HI HC H. unfold create_mood_stone_core.
  wp_step; [wp_step; assumption |].
  wp_step. wp_step; [| assumption].
  apply stone_ring_inv; try assumption.
  match goal with
  | K : I ?s1 |- C -> colors (mood_data ?s1) <> [] => exact (HC s1 K)
  end.
Qed.

Lemma positive_oval_tagged (tag : string) (i : item) :
  positive_oval tag i -> is_tagged tag i = true.
Proof.
  destruct i; simpl; try contradiction.
  intros [-> _]. apply String.eqb_refl.
Qed.

(** One ring appends at most one oval, a [stone_oval]. *)
Lemma stone_ring_emits (cs : list string) (sm ec : R) (ring : Z) (s : viz) :
  exists emitted,
    canvas (exec (stone_ring cs sm ec ring) s) = canvas s ++ emitted
    /\ (List.length emitted <= 1)%nat
    /\ Forall (stone_oval cs sm) emitted.
Proof.
  assert (Hnil : forall s', canvas s' = canvas s ->
            exists emitted, canvas s' = canvas s ++ emitted
              /\ (List.length emitted <= 1)%nat
              /\ Forall (stone_oval cs sm) emitted).
  { intros s' E. exists []. rewrite app_nil_r. repeat split; auto. }
  unfold stone_ring, exec, bind, get, lift, fmod.
  destruct (Req_dec_T (INR (List.length cs)) 0); [now apply Hnil |].
  destruct (nth_error cs _) as [base |] eqn:E; [| now apply Hnil].
  unfold ret at 1.
  destruct (ring_color_returns base sm (frame s) ring s) as [c Ec].
  rewrite Ec.
  destruct (Rlt_dec 0 (ring_size ec (frame s) ring)) as [Hpos | Hneg];
    [| now apply Hnil].
  eexists. split; [reflexivity |]. split; [simpl; lia |].
  constructor; [| constructor]. split.
  - cbn. split; [reflexivity |]. split; lra.
  - exists base, (frame s), ring, s. split; [| exact Ec].
    eapply nth_error_In, E.
Qed.

Lemma stone_rings_emit (cs : list string) (sm ec : R) (l : list Z) :
  forall s,
  exists emitted,
    canvas (exec (for_each l (stone_ring cs sm ec)) s) = canvas s ++ emitted
    /\ (List.length emitted <= List.length l)%nat
    /\ Forall (stone_oval cs sm) emitted.
Proof.
  induction l as [| ring l IH]; intros s.
  - exists []. rewrite app_nil_r. repeat split; auto.
  - destruct (stone_ring_emits cs sm ec ring s) as (e1 & E1 & L1 & F1).
    cbn [for_each]. unfold exec, bind in *.
    destruct (stone_ring cs sm ec ring s) as [[[] | e] s1]; cbn [snd] in *.
    + destruct (IH s1) as (e2 & E2 & L2 & F2).
      exists (e1 ++ e2). rewrite E2, E1, app_assoc.
      split; [reflexivity |]. split.
      * rewrite length_app. simpl. lia.
      * now apply Forall_app.
    + exists e1. split; [exact E1 |]. split; [simpl; lia | exact F1].
Qed.

Lemma create_mood_stone_core_emits (s : viz) :
  exists emitted,
    canvas (exec create_mood_stone_core s)
    = filter (fun i => negb (is_tagged "stone_core" i)) (canvas s) ++ emitted
    /\ (List.length emitted <= 10)%nat
    /\ Forall (stone_oval (colors (mood_data s))
                          (IZR (stress_level (mood_data s)) / 100)) emitted.
Proof.
  unfold create_mood_stone_core.
  set (s1 := exec (canvas_delete "stone_core") s).
  destruct (stone_rings_emit (colors (mood_data s1))
              (IZR (stress_level (mood_data s1)) / 100)
              (IZR (economic_pressure (mood_data s1)) / 100)
              (range 10) s1) as (emitted & E & L & F).
  exists emitted. split; [exact E |]. split; [exact L | exact F].
Qed.

(** ** One tick and many *)

(** A tick keeps [keeps s0] and returns from a [well_formed] state. *)
Lemma animate_wp (s0 : viz) s :
  keeps s0 s -> wp animate (inv_post (keeps s0) (well_formed s0)) s.
Proof.
  intros H. pose proof (keeps_insensitive s0) as HI.
  unfold animate. wp_step. wp_step; [now wp_step |].
  wp_step; [now apply create_holographic_background_inv |].
  wp_step; [now apply create_economic_pressure_visualization_inv |].
  wp_step; [now apply create_energy_flow_wisps_inv |].
  wp_step.
  { apply update_particle_systems_keeps; [| assumption]. now intros []. }
  wp_step.
  { apply create_mood_stone_core_inv; try assumption.
    intros sk K [Hc _]. now rewrite (keeps_mood _ _ K). }
  wp_step; [now apply create_stress_pattern_overlay_inv |].
  wp_step; [now apply create_sparkle_field_inv |].
  wp_step; [now apply create_floating_text_inv |].
  now apply advance_frame_inv.
Qed.

Lemma animate_keeps s : keeps s (exec animate s).
Proof. apply (wp_exec _ _ _ _ (animate_wp s s (keeps_refl s))). Qed.

Lemma animate_returns s :
  well_formed s -> animate s = (Ok tt, exec animate s).
Proof.
  intros W.
  destruct (wp_returns _ _ _ _ (animate_wp s s (keeps_refl s)) W) as [[] E].
  exact E.
Qed.

Lemma ticks_keeps (n : nat) : forall s, keeps s (ticks n s).
Proof.
  induction n as [| n IH]; intros s; simpl.
  - apply keeps_refl.
  - eapply keeps_trans; [apply animate_keeps | apply IH].
Qed.

Lemma ticks_well_formed (n : nat) s : well_formed s -> well_formed (ticks n s).
Proof. apply well_formed_keeps, ticks_keeps. Qed.

Lemma animate_stopped (s : viz) : running s = false -> animate s = (Ok tt, s).
Proof. intros H. unfold animate, bind, get. now rewrite H. Qed.

Lemma ticks_stopped (n : nat) (s : viz) : running s = false -> ticks n s = s.
Proof.
  intros H. induction n as [| n IH]; [reflexivity |].
  simpl. unfold exec. now rewrite (animate_stopped s H).
Qed.

(** The layers after [update_particle_systems], under an insensitive
    invariant. *)
Lemma after_particles_inv (I : viz -> Prop) s :
  insensitive I ->
  I s ->
  wp (create_mood_stone_core ;;
      create_stress_pattern_overlay ;;
      create_sparkle_field ;;
      create_floating_text ;;
      modify (fun s => set_frame s (frame s + 1)%Z) ;;
      root_after 40) (inv_post I False) s.
Proof.
  intros HI H.
  wp_step; [apply create_mood_stone_core_inv; auto; contradiction |].
  wp_step; [now apply create_stress_pattern_overlay_inv |].
  wp_step; [now apply create_sparkle_field_inv |].
  wp_step; [now apply create_floating_text_inv |].
  now apply advance_frame_inv.
Qed.

(** The tick, cut at [update_particle_systems]: the layers before it and
    the layers after it leave the particles as they find them. *)
Lemma animate_particles (s : viz) :
  running s = true ->
  exists s1,
    keeps s s1
    /\ particles s1 = particles s
    /\ particles (exec animate s)
       = particles (exec update_particle_systems s1).
Proof.
  intros Hr.
  set (I := fun s' => keeps s s' /\ particles s' = particles s).
  assert (HI : insensitive I).
  { apply insensitive_and;
      [apply keeps_insensitive
      | apply (particles_insensitive (fun ps => ps = particles s))]. }
  assert (I0 : I s) by (split; [apply keeps_refl | reflexivity]).
  unfold animate, exec at 1. rewrite bind_get_eq, Hr. cbn [negb].
  match goal with
  | |- context [snd (?m s)] => change (snd (m s)) with (exec m s)
  end.
  pose proof (create_holographic_background_inv I True HI s I0) as W1.
  rewrite (proj1 (layer_step I _ _ s W1)).
  pose proof (wp_exec _ _ _ _ W1) as I1.
  set (sa := exec create_holographic_background s) in *.
  pose proof (create_economic_pressure_visualization_inv I True HI sa I1)
    as W2.
  rewrite (proj1 (layer_step I _ _ sa W2)).
  pose proof (wp_exec _ _ _ _ W2) as I2.
  set (sb := exec create_economic_pressure_visualization sa) in *.
  pose proof (create_energy_flow_wisps_inv I True sb HI I2) as W3.
  rewrite (proj1 (layer_step I _ _ sb W3)).
  pose proof (wp_exec _ _ _ _ W3) as [K1 P1].
  set (s1 := exec create_energy_flow_wisps sb) in *.
  exists s1. split; [exact K1 |]. split; [exact P1 |].
  destruct (exec_bind_cases update_particle_systems
              (fun _ => create_mood_stone_core ;;
                        create_stress_pattern_overlay ;;
                        create_sparkle_field ;;
                        create_floating_text ;;
                        modify (fun s => set_frame s (frame s + 1)%Z) ;;
                        root_after 40) s1) as [E | [[] E]];
    rewrite E; [reflexivity |].
  set (s2 := exec update_particle_systems s1).
  apply (wp_exec (fun s' => particles s' = particles s2) False).
  apply after_particles_inv; [| reflexivity].
  apply (particles_insensitive (fun ps => ps = particles s2)).
Qed.

(** ** Initialization *)

Lemma choice_energy (n : nat) :
  nth_error [core; stress; economic] (n mod 3)
  = Some (nth (n mod 3) [core; stress; economic] core).
Proof.
  pose proof (Nat.mod_upper_bound n 3) as H.
  destruct (n mod 3) as [| [| [| m]]]; try reflexivity. lia.
Qed.

(** Unfolds the accessors of the state and of the generator. *)
Ltac run_s :=
  cbv [choice List.length
       root_destroyed after_queue width height canvas frame running
       center_x center_y mood_data particles energy_wisps stress_fragments
       generator set_root_destroyed set_after_queue set_canvas set_frame
       set_running set_particles set_energy_wisps set_stress_fragments
       set_generator Random.draws Random.picks Random.cursor Random.advance].

Lemma new_particle_run (s : viz) : new_particle s = (Ok tt, add_particle s).
Proof.
  destruct s as [rd aq w h cv fr rn cx cy md ps ws fs [dr pk k]].
  unfold new_particle. run_m. run_s.
  rewrite choice_energy. reflexivity.
Qed.

Lemma new_wisp_run (n : Z) (i : nat) (s : viz) :
  n <> 0%Z -> new_wisp n (Z.of_nat i) s = (Ok tt, add_wisp n i s).
Proof.
  intros Hn.
  destruct s as [rd aq w h cv fr rn cx cy md ps ws fs [dr pk k]].
  unfold new_wisp. run_m.
  rewrite truediv_ok by (intros E; apply eq_IZR in E; contradiction).
  reflexivity.
Qed.

Lemma new_fragment_run (x : R) (s : viz) :
  new_fragment x s = (Ok tt, add_fragment x s).
Proof.
  destruct s as [rd aq w h cv fr rn cx cy md ps ws fs [dr pk k]].
  reflexivity.
Qed.

(** A loop over [range] whose body always returns is a fold. *)
Lemma for_each_range_run (body : Z -> M unit) (step : nat -> viz -> viz) :
  (forall i s, body (Z.of_nat i) s = (Ok tt, step i s)) ->
  forall n a s,
    for_each (map Z.of_nat (seq a n)) body s
    = (Ok tt, fold_left (fun s i => step i s) (seq a n) s).
Proof.
  intros Hb. induction n as [| n IH]; intros a s; simpl.
  - reflexivity.
  - unfold bind. rewrite Hb. apply IH.
Qed.

Lemma fold_add_particle (n : nat) (s : viz) :
  fold_left (fun s _ => add_particle s) (seq 0 n) s
  = set_particles (set_generator s (skip (8 * n) (generator s)))
      (particles s ++
       map (fun j => particle_of_draws (center_x s) (center_y s) (generator s)
                       (8 * j + Random.cursor (generator s)))
           (seq 0 n)).
Proof.
  destruct s as [rd aq w h cv fr rn cx cy md ps ws fs [dr pk k]].
  induction n as [| n IH].
  - unfold skip. run_s. simpl. now rewrite app_nil_r.
  - rewrite seq_S, fold_left_app, IH, map_app.
    unfold add_particle, skip. run_s. cbn [fold_left map Nat.add].
    rewrite <- app_assoc. f_equal. f_equal. lia.
Qed.

Lemma fold_add_wisp (wc : Z) (n : nat) (s : viz) :
  fold_left (fun s i => add_wisp wc i s) (seq 0 n) s
  = set_energy_wisps (set_generator s (skip (4 * n) (generator s)))
      (energy_wisps s ++
       map (fun j => wisp_of_draws wc (Z.of_nat j) (generator s)
                       (4 * j + Random.cursor (generator s)))
           (seq 0 n)).
Proof.
  destruct s as [rd aq w h cv fr rn cx cy md ps ws fs [dr pk k]].
  induction n as [| n IH].
  - unfold skip. run_s. simpl. now rewrite app_nil_r.
  - rewrite seq_S, fold_left_app, IH, map_app.
    unfold add_wisp, skip. run_s. cbn [fold_left map Nat.add].
    rewrite <- app_assoc. f_equal. f_equal. lia.
Qed.

Lemma fold_add_fragment (x : R) (n : nat) (s : viz) :
  fold_left (fun s _ => add_fragment x s) (seq 0 n) s
  = set_stress_fragments (set_generator s (skip (4 * n) (generator s)))
      (stress_fragments s ++
       map (fun j => fragment_of_draws (center_x s) (center_y s) x
                       (generator s) (4 * j + Random.cursor (generator s)))
           (seq 0 n)).
Proof.
  destruct s as [rd aq w h cv fr rn cx cy md ps ws fs [dr pk k]].
  induction n as [| n IH].
  - unfold skip. run_s. simpl. now rewrite app_nil_r.
  - rewrite seq_S, fold_left_app, IH, map_app.
    unfold add_fragment, skip. run_s. cbn [fold_left map Nat.add].
    rewrite <- app_assoc. f_equal. f_equal. lia.
Qed.

Lemma wisp_count_pos (md : mood) : (6 <= wisp_count md)%Z.
Proof. unfold wisp_count. lia. Qed.

(** [initialize_particles] returns and leaves the state [initialized]. *)
Lemma init_run (md : mood) (g : Random.t) :
  init md g = (Ok tt, initialized md g).
Proof.
  unfold init, initialize_particles, range.
  rewrite bind_get_eq.
  replace (mood_data (fresh md g)) with md by reflexivity.
  fold (particle_count md) (wisp_count md) (fragment_count md).
  rewrite (bind_run _ _ _ _ _
             (for_each_range_run _ _ (fun _ s => new_particle_run s) _ _ _)).
  rewrite fold_add_particle.
  rewrite (bind_run _ _ _ _ _
             (for_each_range_run _ _
                (fun i s => new_wisp_run (wisp_count md) i s
                              ltac:(pose proof (wisp_count_pos md); lia))
                _ _ _)).
  rewrite fold_add_wisp.
  rewrite (for_each_range_run _ _
             (fun _ s => new_fragment_run (IZR (stress_level md) / 100) s)).
  rewrite fold_add_fragment.
  destruct g as [dr pk k].
  unfold initialized, fresh, skip. run_s. cbn [app].
  f_equal. f_equal. f_equal. lia.
Qed.

Lemma init_state (md : mood) (g : Random.t) :
  snd (init md g) = initialized md g.
Proof. now rewrite init_run. Qed.

Lemma initialized_lengths (md : mood) (g : Random.t) :
  List.length (particles (initialized md g)) = Z.to_nat (particle_count md)
  /\ List.length (energy_wisps (initialized md g)) = Z.to_nat (wisp_count md)
  /\ List.length (stress_fragments (initialized md g))
     = Z.to_nat (fragment_count md).
Proof.
  unfold initialized. cbn [particles energy_wisps stress_fragments].
  now rewrite !length_map, !length_seq.
Qed.

Lemma initialized_particles_alive (md : mood) (g : Random.t) :
  Random.valid g ->
  Forall (fun p => 50 <= Particle.life p <= 200
                   /\ 50 <= Particle.max_life p <= 200
                   /\ 1 <= Particle.size p <= 4)
         (particles (initialized md g)).
Proof.
  intros Hv. unfold initialized. cbn [particles].
  apply Forall_forall. intros p Hin. apply in_map_iff in Hin.
  destruct Hin as (j & <- & _).
  unfold particle_of_draws.
  cbn [Particle.life Particle.max_life Particle.size].
  repeat split; apply uniform_range; try lra; apply Hv.
Qed.

Lemma initialized_well_formed (md : mood) (g : Random.t) :
  Random.valid g -> colors md <> [] -> well_formed (initialized md g).
Proof.
  intros Hv Hc. split; [exact Hc |].
  eapply Forall_impl; [| apply (initialized_particles_alive md g Hv)].
  intros p (_ & H & _). lra.
Qed.

(** ** Generators and the demo profile *)

Lemma steady_valid (u : R) : 0 <= u < 1 -> Random.valid (steady u).
Proof. intros H k. exact H. Qed.

Lemma every_eighth_valid (hi lo : R) :
  0 <= hi < 1 -> 0 <= lo < 1 -> Random.valid (every_eighth hi lo).
Proof.
  intros Hh Hl k. unfold every_eighth. cbn [Random.draws].
  destruct (k mod 8 =? 4)%nat; assumption.
Qed.

Lemma particle_of_draws_every_eighth (cx cy : Z) (hi lo : R) (j : nat) :
  let p := particle_of_draws cx cy (every_eighth hi lo) (8 * j + 0) in
  Particle.life p = 50 + (200 - 50) * hi
  /\ Particle.max_life p = 50 + (200 - 50) * lo
  /\ Particle.size p = 1 + (4 - 1) * lo.
Proof.
  unfold particle_of_draws, every_eighth.
  cbn [Particle.life Particle.max_life Particle.size Random.draws].
  replace (4 + (8 * j + 0))%nat with (4 + j * 8)%nat by lia.
  replace (5 + (8 * j + 0))%nat with (5 + j * 8)%nat by lia.
  replace (6 + (8 * j + 0))%nat with (6 + j * 8)%nat by lia.
  rewrite !Nat.Div0.mod_add. repeat split.
Qed.

Lemma particle_count_demo : particle_count demo_mood = 75%Z.
Proof. reflexivity. Qed.

Lemma fragment_count_demo : fragment_count demo_mood = 22%Z.
Proof.
  unfold fragment_count, demo_mood. cbn [stress_level].
  apply int_of_float_between; [lia | lra].
Qed.

(** Scenario A of the specification: 75 particles, 6 wisps, 22 fragments. *)
Lemma demo_counts (g : Random.t) :
  let s := snd (init demo_mood g) in
  List.length (particles s) = 75%nat
  /\ List.length (energy_wisps s) = 6%nat
  /\ List.length (stress_fragments s) = 22%nat.
Proof.
  cbv zeta. rewrite init_state.
  destruct (initialized_lengths demo_mood g) as (Hp & Hw & Hf).
  rewrite Hp, Hw, Hf, fragment_count_demo. repeat split.
Qed.

Lemma initialized_first_particle (g : Random.t) :
  nth_error (particles (initialized demo_mood g)) 0
  = Some (particle_of_draws 500 350 g (8 * 0 + Random.cursor g)).
Proof.
  unfold initialized. cbn [particles]. rewrite particle_count_demo.
  change (Z.to_nat 75) with 75%nat. reflexivity.
Qed.

(* ------------------------------------------------------------------ *)

(* ------------------------------------------------------------------ *)
(** * What the layers draw *)

(** ** Rules for [emits] *)

Lemma emits_ret {A} (P : item -> Prop) (k : nat) (a : A) : emits P k (ret a).
Proof.
  intros s. exists []. cbn. rewrite app_nil_r.
  repeat split; [lia | constructor].
Qed.

Lemma emits_quiet {A} (P : item -> Prop) (k : nat) (m : M A) :
  (forall s, canvas (exec m s) = canvas s) -> emits P k m.
Proof.
  intros H s. exists []. rewrite H, app_nil_r.
  repeat split; [cbn; lia | constructor].
Qed.

Lemma emits_bind {A B} (P : item -> Prop) (a b : nat)
      (m : M A) (k : A -> M B) :
  emits P a m -> (forall x, emits P b (k x)) -> emits P (a + b) (bind m k).
Proof.
  intros Hm Hk s.
  destruct (Hm s) as (e1 & E1 & L1 & F1).
  unfold exec, bind in *.
  destruct (m s) as [[x | ex] s1]; cbn in E1 |- *.
  - destruct (Hk x s1) as (e2 & E2 & L2 & F2). unfold exec in E2.
    exists (e1 ++ e2). rewrite E2, E1, app_assoc, length_app.
    repeat split; [lia | apply Forall_app; split; assumption].
  - exists e1. repeat split; [assumption | lia | assumption].
Qed.

Lemma emits_bind_quiet {A B} (P : item -> Prop) (n : nat)
      (m : M A) (k : A -> M B) :
  (forall s, canvas (exec m s) = canvas s) ->
  (forall x, emits P n (k x)) -> emits P n (bind m k).
Proof.
  intros Hm Hk. change n with (0 + n)%nat.
  apply emits_bind; [apply emits_quiet; exact Hm | exact Hk].
Qed.

Lemma emits_create (P : item -> Prop) (i : item) :
  P i -> emits P 1 (canvas_create i).
Proof.
  intros H s. exists [i]. cbn.
  repeat split; [lia | constructor; [exact H | constructor]].
Qed.

Lemma emits_for_each {A} (P : item -> Prop) (b : nat) (body : A -> M unit) :
  forall l : list A,
    (forall a, In a l -> emits P b (body a)) ->
    emits P (List.length l * b) (for_each l body).
Proof.
  induction l as [| a l IH]; intros H.
  - apply emits_ret.
  - cbn [for_each List.length Nat.mul].
    apply emits_bind.
    + apply H. left. reflexivity.
    + intros _. apply IH. intros a' Ha. apply H. right. exact Ha.
Qed.

Lemma emits_weaken {A} (P Q : item -> Prop) (a b : nat) (m : M A) :
  (forall i, P i -> Q i) -> (a <= b)%nat -> emits P a m -> emits Q b m.
Proof.
  intros HP Hab H s. destruct (H s) as (e & E & L & F).
  exists e. repeat split; [exact E | lia |].
  eapply Forall_impl; [| exact F]. exact HP.
Qed.

Lemma emits_le {A} (P : item -> Prop) (a b : nat) (m : M A) :
  emits P a m -> (a <= b)%nat -> emits P b m.
Proof.
  intros H Hab. apply (emits_weaken P P a b); [auto | exact Hab | exact H].
Qed.

Lemma emits_for_each_sum {A} (P : item -> Prop) (w : A -> nat)
      (body : A -> M unit) :
  forall l : list A,
    (forall a, In a l -> emits P (w a) (body a)) ->
    emits P (list_sum (map w l)) (for_each l body).
Proof.
  induction l as [| a l IH]; intros H.
  - apply emits_ret.
  - cbn [for_each map list_sum fold_right].
    apply emits_bind.
    + apply H. left. reflexivity.
    + intros _. apply IH. intros a' Ha. apply H. right. exact Ha.
Qed.

Lemma quiet_get {A} (f : viz -> A) s : canvas (exec (get f) s) = canvas s.
Proof. reflexivity. Qed.

Lemma quiet_lift {A} (r : result A) s : canvas (exec (lift r) s) = canvas s.
Proof. reflexivity. Qed.

Lemma quiet_uniform (a b : R) s : canvas (exec (uniform a b) s) = canvas s.
Proof. reflexivity. Qed.

Lemma quiet_store_wisp i w s : canvas (exec (store_wisp i w) s) = canvas s.
Proof. reflexivity. Qed.

Lemma quiet_store_particle i p s :
  canvas (exec (store_particle i p) s) = canvas s.
Proof. reflexivity. Qed.

(** One syntactic step through a computation that draws. *)
Ltac emits_step :=
  cbv beta zeta;
  lazymatch goal with
  | |- emits _ _ (if ?c then _ else _) => destruct c eqn:?
  | |- emits _ ?k (ret _) =>
      first [is_evar k; apply (emits_ret _ 0%nat) | apply emits_ret]
  | |- emits _ _ (canvas_create _) => apply emits_create
  | |- emits _ _ (bind (get _) _) =>
      apply emits_bind_quiet; [apply quiet_get | intros ?]
  | |- emits _ _ (bind (lift _) _) =>
      apply emits_bind_quiet; [apply quiet_lift | intros ?]
  | |- emits _ _ (bind (uniform _ _) _) =>
      apply emits_bind_quiet; [apply quiet_uniform | intros ?]
  | |- emits _ _ (bind (store_wisp _ _) _) =>
      apply emits_bind_quiet; [apply quiet_store_wisp | intros ?]
  | |- emits _ _ (bind (store_particle _ _) _) =>
      apply emits_bind_quiet; [apply quiet_store_particle | intros ?]
  | |- emits _ _ (bind _ _) => eapply emits_bind; [| intros ?]
  | |- emits _ _ (for_each _ _) => eapply emits_for_each; intros ? ?
  end.

(** A layer is [canvas.delete(tag)], a read of [self] and code that
    draws. *)
Lemma redraws_layer {X} (tag : string) (P : item -> Prop) (k : nat)
      (f : viz -> X) (body : X -> M unit) (s : viz) :
  (forall c, f (set_canvas s c) = f s) ->
  emits (fun i => item_tags i = tag /\ P i) k (body (f s)) ->
  redraws tag P k (canvas_delete tag ;; x <- get f ;; body x) s.
Proof.
  intros Hf H.
  destruct (H (set_canvas s
                 (filter (fun i => negb (String.eqb (item_tags i) tag))
                         (canvas s)))) as (e & E & L & F).
  exists e. repeat split; [| exact L | exact F].
  unfold exec, bind, canvas_delete, modify, get in *. cbn in *.
  rewrite Hf. exact E.
Qed.

Lemma redraws_plain (tag : string) (P : item -> Prop) (k : nat)
      (body : M unit) (s : viz) :
  emits (fun i => item_tags i = tag /\ P i) k body ->
  redraws tag P k (canvas_delete tag ;; body) s.
Proof.
  intros H.
  destruct (H (set_canvas s
                 (filter (fun i => negb (String.eqb (item_tags i) tag))
                         (canvas s)))) as (e & E & L & F).
  exists e. repeat split; [| exact L | exact F].
  exact E.
Qed.

(** ** Colours *)

Lemma in_range (n k : Z) : (0 <= k < n)%Z -> In k (range n).
Proof.
  intros H. unfold range.
  replace k with (Z.of_nat (Z.to_nat k)) by lia.
  apply in_map, in_seq. lia.
Qed.

Lemma range_in (n k : Z) : In k (range n) -> (0 <= k < n)%Z.
Proof.
  unfold range. intros H. apply in_map_iff in H.
  destruct H as (j & <- & H). apply in_seq in H. lia.
Qed.

(** Every byte is formatted as two hexadecimal digits that [int(_, 16)]
    reads back. *)
Lemma format_02x_byte_digits (n : Z) :
  (0 <= n <= 255)%Z ->
  exists c1 c2,
    format_02x n = String c1 (String c2 EmptyString)
    /\ hex_value c1 = Some (n / 16)%Z
    /\ hex_value c2 = Some (n mod 16)%Z
    /\ int16 (format_02x n) = Some n.
Proof.
  intros H.
  pose (check := fun n : Z =>
    match format_02x n with
    | String c1 (String c2 EmptyString) =>
        match hex_value c1, hex_value c2, int16 (format_02x n) with
        | Some d1, Some d2, Some m =>
            ((d1 =? n / 16) && (d2 =? n mod 16) && (m =? n))%Z
        | _, _, _ => false
        end
    | _ => false
    end).
  assert (A : forallb check (range 256) = true) by (vm_compute; reflexivity).
  rewrite forallb_forall in A.
  specialize (A n (in_range 256 n ltac:(lia))).
  unfold check in A.
  destruct (format_02x n) as [| c1 [| c2 [| ? ?]]]; try discriminate.
  destruct (hex_value c1) as [d1 |] eqn:E1; try discriminate.
  destruct (hex_value c2) as [d2 |] eqn:E2; try discriminate.
  destruct (int16 _) as [m |] eqn:E3; try discriminate.
  apply andb_prop in A. destruct A as (A & A3).
  apply andb_prop in A. destruct A as (A1 & A2).
  apply Z.eqb_eq in A1, A2, A3. subst.
  exists c1, c2. repeat split; assumption || reflexivity.
Qed.

Lemma hex_color_rrggbb (r g b : Z) :
  (0 <= r <= 255)%Z -> (0 <= g <= 255)%Z -> (0 <= b <= 255)%Z ->
  rrggbb (hex_color r g b) = true.
Proof.
  intros Hr Hg Hb.
  destruct (format_02x_byte_digits r Hr) as (r1 & r2 & Er & R1 & R2 & _).
  destruct (format_02x_byte_digits g Hg) as (g1 & g2 & Eg & G1 & G2 & _).
  destruct (format_02x_byte_digits b Hb) as (b1 & b2 & Eb & B1 & B2 & _).
  unfold hex_color, rrggbb. rewrite Er, Eg, Eb. cbn.
  rewrite R1, R2, G1, G2, B1, B2. reflexivity.
Qed.

Lemma hex_color_channels (r g b : Z) :
  (0 <= r <= 255)%Z -> (0 <= g <= 255)%Z -> (0 <= b <= 255)%Z ->
  String.length (hex_color r g b) = 7%nat
  /\ channels (hex_color r g b) = Some (r, g, b).
Proof.
  intros Hr Hg Hb.
  destruct (format_02x_byte_digits r Hr) as (r1 & r2 & Er & _ & _ & Ir).
  destruct (format_02x_byte_digits g Hg) as (g1 & g2 & Eg & _ & _ & Ig).
  destruct (format_02x_byte_digits b Hb) as (b1 & b2 & Eb & _ & _ & Ib).
  unfold hex_color, channels. rewrite Er, Eg, Eb in *.
  split; [reflexivity |].
  cbn [append slice substring Nat.sub].
  rewrite Ir, Ig, Ib. reflexivity.
Qed.

Lemma clamp_byte_range (n : Z) : (0 <= clamp_byte n <= 255)%Z.
Proof. unfold clamp_byte. lia. Qed.

Lemma int_of_float_byte (r : R) :
  0 <= r < 256 -> (0 <= int_of_float r <= 255)%Z.
Proof.
  intros H. destruct (int_of_float_nonneg r 256 H). lia.
Qed.

Lemma clamped_byte (r : R) :
  (0 <= int_of_float (Rmax 0 (Rmin 255 r)) <= 255)%Z.
Proof.
  apply int_of_float_byte. unfold Rmax, Rmin.
  destruct (Rle_dec 255 r); destruct (Rle_dec 0 _); lra.
Qed.

(** ** The eight layers *)

Lemma create_holographic_background_redraws (md : mood) (s : viz) :
  redraws "background" (well_coloured md) 6 create_holographic_background s.
Proof.
  unfold create_holographic_background.
  apply redraws_plain.
  eapply emits_le.
  - emits_step. repeat emits_step.
    split; [reflexivity |]. intros _.
    apply hex_color_rrggbb; apply clamp_byte_range.
  - vm_compute. lia.
Qed.

Lemma sin_unit (x : R) : 0 <= 1 + sin x <= 2.
Proof. pose proof (SIN_bound x). lra. Qed.

Lemma cos_unit (x : R) : 0 <= 1 + cos x <= 2.
Proof. pose proof (COS_bound x). lra. Qed.

Lemma create_energy_flow_wisps_redraws (md : mood) (s : viz) :
  redraws "energy_wisps" (well_coloured md) (List.length (energy_wisps s))
          create_energy_flow_wisps s.
Proof.
  unfold create_energy_flow_wisps.
  apply redraws_layer; [reflexivity |].
  eapply emits_le.
  - emits_step. repeat emits_step.
    split; [reflexivity |]. intros _.
    apply hex_color_rrggbb; apply int_of_float_byte.
    + match goal with |- _ <= 80 + 80 * sin ?x < _ =>
        pose proof (SIN_bound x) end. lra.
    + match goal with |- _ <= 120 + 40 * cos ?x < _ =>
        pose proof (COS_bound x) end. lra.
    + match goal with |- _ <= 160 + 45 * sin ?x < _ =>
        pose proof (SIN_bound x) end. lra.
  - unfold indexed. rewrite length_combine, length_seq. lia.
Qed.

Lemma create_economic_pressure_visualization_redraws (s : viz) :
  redraws "economic_pressure" (well_coloured (mood_data s)) 18
          create_economic_pressure_visualization s.
Proof.
  unfold create_economic_pressure_visualization.
  apply redraws_layer; [reflexivity |].
  eapply emits_le.
  - emits_step; [emits_step |]; repeat emits_step.
    split; [reflexivity |]. intros (_ & Hp).
    apply IZR_le in Hp.
    match goal with
    | |- context [int_of_float ?x] =>
        assert (B : (0 <= int_of_float x <= 255)%Z)
    end.
    { apply int_of_float_byte.
      match goal with |- context [sin ?x] => pose proof (SIN_bound x) end.
      nra. }
    apply hex_color_rrggbb; [exact B | |];
      (split; [apply Z.div_pos; lia
              | apply Z.div_le_upper_bound; lia]).
  - vm_compute. lia.
Qed.

Lemma update_particle_emits (md : mood) (i : nat) (p : Particle.t) :
  emits (fun it => item_tags it = "particles"%string /\ well_coloured md it)
        1 (update_particle i p).
Proof.
  unfold update_particle.
  eapply emits_le.
  - eapply emits_bind; [unfold physics; repeat emits_step | intros p1].
    eapply emits_bind; [| intros p2].
    + destruct (Rle_dec (Particle.life p1) 0);
        [unfold respawn; repeat emits_step | apply (emits_ret _ 0%nat)].
    + unfold draw_particle. repeat emits_step.
      split; [reflexivity |]. intros _.
      destruct (Particle.energy_type p2); reflexivity.
  - cbn. lia.
Qed.

Lemma update_particle_systems_redraws (md : mood) (s : viz) :
  redraws "particles" (well_coloured md) (List.length (particles s))
          update_particle_systems s.
Proof.
  unfold update_particle_systems.
  apply redraws_layer; [reflexivity |].
  eapply emits_le.
  - apply emits_for_each. intros ip _. apply update_particle_emits.
  - unfold indexed. rewrite length_combine, length_seq. lia.
Qed.

Lemma ring_color_value (c : string) (sm : R) (fr ring : Z) (s s' : viz) col :
  ring_color c sm fr ring s = (Ok col, s') ->
  col = c
  \/ exists r g b,
       (0 <= r <= 255)%Z /\ (0 <= g <= 255)%Z /\ (0 <= b <= 255)%Z
       /\ col = hex_color r g b.
Proof.
  unfold ring_color, try_except, bind, ret, raise.
  destruct (String.length c =? 7)%nat; [| left; congruence].
  destruct (int16 (slice 1 3 c)); [| left; congruence].
  destruct (int16 (slice 3 5 c)); [| left; congruence].
  destruct (int16 (slice 5 7 c)); [| left; congruence].
  intros H. right. injection H as <- _.
  do 3 eexists. repeat split; try reflexivity; apply clamped_byte.
Qed.

Lemma stone_oval_coloured (md : mood) (sm : R) (i : item) :
  stone_oval (colors md) sm i ->
  item_tags i = "stone_core"%string /\ well_coloured md i.
Proof.
  intros (Hp & base & fr & ring & s & Hin & Hc). split.
  - destruct i; cbn in Hp; try contradiction. cbn. apply Hp.
  - intros (Hcs & _).
    destruct (ring_color_value _ _ _ _ _ _ _ Hc)
      as [-> | (r & g & b & Hr & Hg & Hb & ->)].
    + rewrite Forall_forall in Hcs. apply Hcs. exact Hin.
    + apply hex_color_rrggbb; assumption.
Qed.

Lemma create_mood_stone_core_redraws (s : viz) :
  redraws "stone_core" (well_coloured (mood_data s)) 10
          create_mood_stone_core s.
Proof.
  destruct (create_mood_stone_core_emits s) as (e & E & L & F).
  exists e. repeat split; [exact E | exact L |].
  eapply Forall_impl; [| exact F].
  intros i. apply stone_oval_coloured.
Qed.

Lemma create_stress_pattern_overlay_redraws (s : viz) :
  redraws "stress_patterns" (well_coloured (mood_data s))
          (overlay_items (mood_data s)) create_stress_pattern_overlay s.
Proof.
  unfold create_stress_pattern_overlay.
  apply redraws_layer; [reflexivity |].
  cbv beta zeta. unfold overlay_items.
  apply emits_for_each_sum. intros pattern _.
  unfold pattern_items.
  destruct (String.eqb pattern "economic_psychological_spiral").
  - eapply emits_le.
    + emits_step. repeat emits_step.
      split; [reflexivity |]. intros _. reflexivity.
    + vm_compute. lia.
  - destruct (String.eqb pattern "survival_mode_activation").
    + eapply emits_le.
      * emits_step. repeat emits_step.
        split; [reflexivity |]. intros _. reflexivity.
      * vm_compute. lia.
    + apply emits_ret.
Qed.

Lemma create_sparkle_field_redraws (s : viz) :
  redraws "sparkles" (well_coloured (mood_data s))
          (Z.to_nat (num_sparkles (mood_data s))) create_sparkle_field s.
Proof.
  unfold create_sparkle_field.
  apply redraws_layer; [reflexivity |].
  eapply emits_le.
  - emits_step. repeat emits_step.
    split; [reflexivity |]. intros _.
    match goal with
    | H : (?sl <? 15)%Z = true |- _ =>
        apply Z.ltb_lt in H;
        assert (B : (0 <= sl < 15)%Z)
          by (split; [apply Z.mod_pos_bound; lia | exact H]);
        clear H; set (life := sl) in *
    end.
    assert (C : (0 <= int_of_float (IZR (200 * (15 - life)) / 15) <= 255)%Z).
    { apply int_of_float_byte.
      assert (0 <= IZR (200 * (15 - life)) <= 3000)
        by (split; apply IZR_le; lia).
      lra. }
    apply hex_color_rrggbb; exact C.
  - rewrite range_length. unfold num_sparkles. lia.
Qed.

Lemma create_floating_text_redraws (md : mood) (s : viz) :
  redraws "floating_text" (well_coloured md) 4 create_floating_text s.
Proof.
  unfold create_floating_text.
  apply redraws_layer; [reflexivity |].
  eapply emits_le.
  - repeat emits_step;
      (split; [reflexivity |]); intros _; try reflexivity.
    apply hex_color_rrggbb; apply int_of_float_byte;
      match goal with |- context [sin ?x] => pose proof (SIN_bound x) end;
      lra.
  - cbn. lia.
Qed.

(** ** What a layer leaves alone *)

Lemma untouched_bind {A B X} (f : viz -> X) (m : M A) (k : A -> M B) :
  untouched f m -> (forall x, untouched f (k x)) -> untouched f (bind m k).
Proof.
  intros Hm Hk s.
  destruct (exec_bind_cases m k s) as [E | (a & E)]; rewrite E.
  - apply Hm.
  - rewrite Hk. apply Hm.
Qed.

Lemma untouched_for_each {A X} (f : viz -> X) (body : A -> M unit) :
  forall l : list A,
    (forall a, In a l -> untouched f (body a)) -> untouched f (for_each l body).
Proof.
  induction l as [| a l IH]; intros H; [intros s; reflexivity |].
  cbn [for_each]. apply untouched_bind.
  - apply H. left. reflexivity.
  - intros _. apply IH. intros a' Ha. apply H. right. exact Ha.
Qed.

Lemma ring_color_untouched {X} (f : viz -> X) c sm fr ring :
  untouched f (ring_color c sm fr ring).
Proof.
  intros s. unfold exec.
  destruct (ring_color_returns c sm fr ring s) as (col & ->). reflexivity.
Qed.

(** The layers, on any canvas whose calls leave [f] as it is. *)
Section Untouched.
Context {cv : Canvas} {X : Type} (f : viz -> X).
Hypothesis Hcreate : forall i s, f (exec (canvas_create i) s) = f s.
Hypothesis Hc : forall s c, f (set_canvas s c) = f s.
Hypothesis Hg : forall s g, f (set_generator s g) = f s.
Hypothesis Hp : forall s l, f (set_particles s l) = f s.
Hypothesis Hw : forall s l, f (set_energy_wisps s l) = f s.

Lemma untouched_ret {A} (a : A) : untouched f (ret a).
Proof. intros s. reflexivity. Qed.

Lemma untouched_raise {A} (e : exn) : untouched f (@raise A e).
Proof. intros s. reflexivity. Qed.

Lemma untouched_get {A} (h : viz -> A) : untouched f (get h).
Proof. intros s. reflexivity. Qed.

Lemma untouched_lift {A} (r : result A) : untouched f (lift r).
Proof. intros s. reflexivity. Qed.

Lemma untouched_uniform (a b : R) : untouched f (uniform a b).
Proof. intros s. apply Hg. Qed.

Lemma untouched_canvas_create (i : item) : untouched f (canvas_create i).
Proof. intros s. apply Hcreate. Qed.

Lemma untouched_canvas_delete (t : string) : untouched f (canvas_delete t).
Proof. intros s. apply Hc. Qed.

Lemma untouched_store_wisp (i : nat) (w : Wisp.t) :
  untouched f (store_wisp i w).
Proof. intros s. apply Hw. Qed.

Lemma untouched_store_particle (i : nat) (p : Particle.t) :
  untouched f (store_particle i p).
Proof. intros s. apply Hp. Qed.

Local Ltac untouched_auto :=
  repeat (cbv beta zeta;
          lazymatch goal with
          | |- untouched _ (if ?c then _ else _) => destruct c
          | |- untouched _ (match ?c with Some _ => _ | None => _ end) =>
              destruct c
          | |- untouched _ (bind _ _) => apply untouched_bind; [| intros ?]
          | |- untouched _ (for_each _ _) =>
              apply untouched_for_each; intros ? ?
          | |- untouched _ (ret _) => apply untouched_ret
          | |- untouched _ (raise _) => apply untouched_raise
          | |- untouched _ (get _) => apply untouched_get
          | |- untouched _ (lift _) => apply untouched_lift
          | |- untouched _ (uniform _ _) => apply untouched_uniform
          | |- untouched _ (canvas_create _) => apply untouched_canvas_create
          | |- untouched _ (canvas_delete _) => apply untouched_canvas_delete
          | |- untouched _ (store_wisp _ _) => apply untouched_store_wisp
          | |- untouched _ (store_particle _ _) =>
              apply untouched_store_particle
          | |- untouched _ (ring_color _ _ _ _) => apply ring_color_untouched
          end).

Lemma create_holographic_background_untouched :
  untouched f create_holographic_background.
Proof. unfold create_holographic_background. untouched_auto. Qed.

Lemma create_economic_pressure_visualization_untouched :
  untouched f create_economic_pressure_visualization.
Proof. unfold create_economic_pressure_visualization. untouched_auto. Qed.

Lemma create_energy_flow_wisps_untouched :
  untouched f create_energy_flow_wisps.
Proof. unfold create_energy_flow_wisps. untouched_auto. Qed.

Lemma update_particle_untouched (i : nat) (p : Particle.t) :
  untouched f (update_particle i p).
Proof.
  unfold update_particle, physics, respawn, draw_particle. untouched_auto.
Qed.

Lemma update_particle_systems_untouched :
  untouched f update_particle_systems.
Proof.
  unfold update_particle_systems. untouched_auto.
  apply update_particle_untouched.
Qed.

Lemma create_mood_stone_core_untouched :
  untouched f create_mood_stone_core.
Proof. unfold create_mood_stone_core, stone_ring. untouched_auto. Qed.

Lemma create_stress_pattern_overlay_untouched :
  untouched f create_stress_pattern_overlay.
Proof. unfold create_stress_pattern_overlay. untouched_auto. Qed.

Lemma create_sparkle_field_untouched : untouched f create_sparkle_field.
Proof. unfold create_sparkle_field. untouched_auto. Qed.

Lemma create_floating_text_untouched : untouched f create_floating_text.
Proof. unfold create_floating_text. untouched_auto. Qed.

End Untouched.

(** ** The clock of a tick *)

Lemma clocked_bind {B} (Q : result B -> viz -> Prop) (c : Z * list Z)
      (L : M unit) (k : unit -> M B) :
  untouched clock L ->
  (forall e s', clock s' = c -> Q (Raise e) s') ->
  (forall s', clock s' = c -> wp (k tt) Q s') ->
  forall s, clock s = c -> wp (bind L k) Q s.
Proof.
  intros Hu Hr Hk s Hs. specialize (Hu s). unfold exec in Hu.
  unfold wp, bind. destruct (L s) as [[[] | e] s1]; cbn in Hu.
  - apply Hk. congruence.
  - cbn. apply Hr. congruence.
Qed.

Lemma layers_clock (c : Z * list Z) :
  forall s,
    clock s = c ->
    wp (create_holographic_background ;;
        create_economic_pressure_visualization ;;
        create_energy_flow_wisps ;;
        update_particle_systems ;;
        create_mood_stone_core ;;
        create_stress_pattern_overlay ;;
        create_sparkle_field ;;
        create_floating_text ;;
        modify (fun s => set_frame s (frame s + 1)%Z) ;;
        root_after 40)
       (fun r s' =>
          match r with
          | Ok _ => clock s' = (fst c + 1, snd c ++ [40])%Z
          | Raise _ => clock s' = c
          end) s.
Proof.
  repeat (apply clocked_bind;
          [lazymatch goal with
           | |- untouched _ create_holographic_background =>
               apply create_holographic_background_untouched
           | |- untouched _ create_economic_pressure_visualization =>
               apply create_economic_pressure_visualization_untouched
           | |- untouched _ create_energy_flow_wisps =>
               apply create_energy_flow_wisps_untouched
           | |- untouched _ update_particle_systems =>
               apply update_particle_systems_untouched
           | |- untouched _ create_mood_stone_core =>
               apply create_mood_stone_core_untouched
           | |- untouched _ create_stress_pattern_overlay =>
               apply create_stress_pattern_overlay_untouched
           | |- untouched _ create_sparkle_field =>
               apply create_sparkle_field_untouched
           | |- untouched _ create_floating_text =>
               apply create_floating_text_untouched
           end;
           reflexivity
          | intros e s' H; exact H
          | ]).
  intros s <-. reflexivity.
Qed.

Lemma animate_clock (s : viz) :
  running s = true ->
  wp animate
     (fun r s' =>
        match r with
        | Ok _ => clock s' = (frame s + 1, after_queue s ++ [40])%Z
        | Raise _ => clock s' = clock s
        end) s.
Proof.
  intros Hr. unfold animate. apply wp_bind_get. rewrite Hr. cbn [negb].
  apply (layers_clock (clock s) s). reflexivity.
Qed.

(** ** When a tick fails *)

Lemma particle_const_max_life (p q : Particle.t) :
  particle_const p = particle_const q ->
  Particle.max_life p = Particle.max_life q.
Proof. unfold particle_const. intros H. injection H as H _ _. exact H. Qed.

Lemma draw_particle_outcome (p : Particle.t) (s : viz) :
  (Particle.max_life p <> 0 -> exists s', draw_particle p s = (Ok tt, s'))
  /\ (Particle.max_life p = 0 ->
      draw_particle p s = (Raise ZeroDivisionError, s)).
Proof.
  unfold draw_particle, bind, lift, truediv.
  destruct (Req_dec_T (Particle.max_life p) 0) as [E | N]; split; intros H;
    try contradiction; try reflexivity.
  cbv beta zeta.
  destruct (Rlt_dec _ _); unfold canvas_create, modify, ret; eexists;
    reflexivity.
Qed.

Lemma update_particle_outcome (i : nat) (p : Particle.t) (s : viz) :
  (Particle.max_life p <> 0 ->
   exists s', update_particle i p s = (Ok tt, s'))
  /\ (Particle.max_life p = 0 ->
      exists s', update_particle i p s = (Raise ZeroDivisionError, s')).
Proof.
  unfold update_particle.
  destruct (physics_returns i p s) as (p1 & E1 & _ & C1 & _).
  rewrite (bind_run _ _ _ _ _ E1).
  apply particle_const_max_life in C1.
  set (s1 := exec (physics i p) s). clearbody s1. clear E1.
  assert (R : exists p2 s2,
             (if Rle_dec (Particle.life p1) 0 then respawn i p1 else ret p1)
               s1 = (Ok p2, s2)
             /\ Particle.max_life p2 = Particle.max_life p).
  { destruct (Rle_dec (Particle.life p1) 0).
    - destruct (respawn_returns i p1 s1) as (p2 & E2 & _ & C2 & _).
      apply particle_const_max_life in C2.
      exists p2, (exec (respawn i p1) s1). split; [exact E2 | congruence].
    - exists p1, s1. split; [reflexivity | exact C1]. }
  destruct R as (p2 & s2 & E2 & C2).
  rewrite (bind_run _ _ _ _ _ E2).
  destruct (draw_particle_outcome p2 s2) as (Hok & Hraise).
  rewrite C2 in Hok, Hraise. split; intros H.
  - apply Hok, H.
  - exists s2. apply Hraise, H.
Qed.

Lemma bind_raise {A B} (m : M A) (k : A -> M B) s e s' :
  m s = (Raise e, s') -> bind m k s = (Raise e, s').
Proof. intros H. unfold bind. rewrite H. reflexivity. Qed.

Lemma particle_loop_raises (l : list (nat * Particle.t)) :
  Exists (fun ip => Particle.max_life (snd ip) = 0) l ->
  forall s,
  exists s',
    for_each l (fun ip => update_particle (fst ip) (snd ip)) s
    = (Raise ZeroDivisionError, s').
Proof.
  induction l as [| [i p] l IH]; intros H s; [inversion H |].
  cbn [for_each fst snd].
  destruct (update_particle_outcome i p s) as (Hok & Hraise).
  destruct (Req_dec_T (Particle.max_life p) 0) as [Z | N].
  - destruct (Hraise Z) as (s' & E). exists s'. apply bind_raise, E.
  - destruct (Hok N) as (s' & E). rewrite (bind_run _ _ _ _ _ E).
    apply IH. inversion H as [? ? H0 | ? ? H0]; subst; [| exact H0].
    cbn in H0. contradiction.
Qed.

Lemma indexed_exists {A} (P : A -> Prop) (l : list A) :
  Exists P l -> Exists (fun ia => P (snd ia)) (indexed l).
Proof.
  unfold indexed. generalize 0%nat.
  induction l as [| a l IH]; intros k H; [inversion H |].
  cbn. inversion H as [? ? H0 | ? ? H0]; subst.
  - left. exact H0.
  - right. apply IH, H0.
Qed.

Lemma update_particle_systems_raises (s : viz) :
  Exists (fun p => Particle.max_life p = 0) (particles s) ->
  exists s', update_particle_systems s = (Raise ZeroDivisionError, s').
Proof.
  intros H. unfold update_particle_systems.
  unfold bind at 1. unfold canvas_delete at 1, modify at 1.
  rewrite bind_get_eq.
  apply particle_loop_raises.
  apply (indexed_exists (fun p => Particle.max_life p = 0)). exact H.
Qed.

Lemma create_mood_stone_core_raises (s : viz) :
  colors (mood_data s) = [] ->
  exists s', create_mood_stone_core s = (Raise ZeroDivisionError, s').
Proof.
  intros H. unfold create_mood_stone_core.
  unfold bind at 1. unfold canvas_delete at 1, modify at 1.
  rewrite bind_get_eq. cbv beta zeta.
  replace (colors (mood_data (set_canvas s _))) with (@nil string)
    by (symmetry; exact H).
  assert (E : range 10 = 0%Z :: map Z.of_nat (seq 1 9)) by reflexivity.
  rewrite E. cbn [for_each].
  eexists. apply bind_raise.
  unfold stone_ring. rewrite !bind_get_eq.
  apply bind_raise. unfold lift, fmod. cbn [List.length INR].
  destruct (Req_dec_T 0 0) as [_ | N]; [reflexivity | contradiction].
Qed.

Lemma animate_fails (s : viz) :
  running s = true ->
  ~ well_formed s ->
  exists s', animate s = (Raise ZeroDivisionError, s').
Proof.
  intros Hr Hw. unfold animate. rewrite bind_get_eq, Hr. cbn [negb].
  set (I := fun s' => keeps s s' /\ particles s' = particles s).
  assert (HI : insensitive I).
  { apply insensitive_and; [apply keeps_insensitive |].
    apply (particles_insensitive (fun l => l = particles s)). }
  assert (I0 : I s) by (split; [apply keeps_refl | reflexivity]).
  pose proof (create_holographic_background_inv I True HI s I0) as W1.
  destruct (wp_returns _ _ _ _ W1 Logic.I) as ([] & E1).
  apply wp_exec in W1. rewrite (bind_run _ _ _ _ _ E1). clear E1.
  set (s1 := exec create_holographic_background s) in *. clearbody s1.
  pose proof (create_economic_pressure_visualization_inv I True HI s1 W1)
    as W2.
  destruct (wp_returns _ _ _ _ W2 Logic.I) as ([] & E2).
  apply wp_exec in W2. rewrite (bind_run _ _ _ _ _ E2). clear E2.
  set (s2 := exec create_economic_pressure_visualization s1) in *.
  clearbody s2.
  pose proof (create_energy_flow_wisps_inv I True s2 HI W2) as W3.
  destruct (wp_returns _ _ _ _ W3 Logic.I) as ([] & E3).
  apply wp_exec in W3. rewrite (bind_run _ _ _ _ _ E3). clear E3.
  set (s3 := exec create_energy_flow_wisps s2) in *. clearbody s3.
  destruct W3 as (K3 & P3).
  destruct (Forall_Exists_dec (fun p => Particle.max_life p <> 0)
              (fun p => match Req_dec_T (Particle.max_life p) 0 with
                        | left E => right (fun N => N E)
                        | right N => left N
                        end) (particles s)) as [F | X].
  - assert (C : colors (mood_data s) = []).
    { destruct (colors (mood_data s)) eqn:E; [reflexivity |].
      exfalso. apply Hw. split; [rewrite E; discriminate | exact F]. }
    pose proof (update_particle_systems_keeps s True s3 (fun _ => F) K3)
      as W4.
    destruct (wp_returns _ _ _ _ W4 Logic.I) as ([] & E4).
    apply wp_exec in W4. rewrite (bind_run _ _ _ _ _ E4). clear E4.
    set (s4 := exec update_particle_systems s3) in *. clearbody s4.
    destruct (create_mood_stone_core_raises s4) as (s' & E5).
    { rewrite (keeps_mood _ _ W4). exact C. }
    exists s'. apply bind_raise, E5.
  - assert (X' : Exists (fun p => Particle.max_life p = 0) (particles s3)).
    { rewrite P3. eapply Exists_impl; [| exact X].
      intros p N. cbv beta in N.
      destruct (Req_dec_T (Particle.max_life p) 0) as [E | N'];
        [exact E | contradiction]. }
    destruct (update_particle_systems_raises s3 X') as (s' & E4).
    exists s'. apply bind_raise, E4.
Qed.

(* ------------------------------------------------------------------ *)
(** * Tk's canvas *)

(** ** The colours Tk accepts *)

Lemma rrggbb_tk_color (named : string -> bool) (c : string) :
  rrggbb c = true -> Tk.color named c = true.
Proof.
  unfold rrggbb, Tk.color.
  destruct (chars c) as [| a r]; [discriminate |].
  destruct a as [[] [] [] [] [] [] [] []]; try discriminate.
  intros H. apply andb_prop in H. destruct H as [L F].
  apply Nat.eqb_eq in L. rewrite L.
  apply andb_true_intro. split; [exact F | reflexivity].
Qed.

Lemma tk_color_bytes (named : string -> bool) (r g b : Z) :
  (0 <= r <= 255)%Z -> (0 <= g <= 255)%Z -> (0 <= b <= 255)%Z ->
  Tk.color named (hex_color r g b) = true.
Proof. intros. now apply rrggbb_tk_color, hex_color_rrggbb. Qed.

Example tk_color_name : Tk.color only_red "red" = true.
Proof. reflexivity. Qed.

Example tk_color_unknown_name : Tk.color only_red "odd" = false.
Proof. reflexivity. Qed.

Example tk_color_short (named : string -> bool) :
  Tk.color named "#fff" = true.
Proof. reflexivity. Qed.

Example tk_color_not_hex (named : string -> bool) :
  Tk.color named "#GGGGGG" = false.
Proof. reflexivity. Qed.

Example tk_color_seven_digits (named : string -> bool) :
  Tk.color named (hex_color 256 85 85) = false.
Proof. reflexivity. Qed.

(** ** A call on Tk's canvas *)

Lemma tk_create_accepted (named : string -> bool) (i : item) (s : viz) :
  Tk.color named (item_fill i) = true ->
  @canvas_create (Tk.canvas named) i s = @canvas_create recording i s.
Proof.
  intros H. change (@canvas_create (Tk.canvas named) i) with (Tk.canvas named i).
  unfold Tk.canvas. now rewrite H.
Qed.

Lemma tk_create_rejected (named : string -> bool) (i : item) (s : viz) :
  Tk.color named (item_fill i) = false ->
  @canvas_create (Tk.canvas named) i s = (Raise TclError, s).
Proof.
  intros H. change (@canvas_create (Tk.canvas named) i) with (Tk.canvas named i).
  unfold Tk.canvas. now rewrite H.
Qed.

(** A call on Tk's canvas changes nothing but the canvas. *)
Lemma tk_create_untouched {X} (f : viz -> X) (named : string -> bool) :
  (forall s c, f (set_canvas s c) = f s) ->
  forall i s, f (exec (@canvas_create (Tk.canvas named) i) s) = f s.
Proof.
  intros Hc i s. unfold exec.
  destruct (Tk.color named (item_fill i)) eqn:E.
  - rewrite (tk_create_accepted _ _ _ E). apply Hc.
  - now rewrite (tk_create_rejected _ _ _ E).
Qed.

(** ** Two runs of the same code *)

Lemma same_bind {A B} (m m' : M A) (k k' : A -> M B) (s : viz) :
  m s = m' s ->
  (forall a s', m' s = (Ok a, s') -> k a s' = k' a s') ->
  bind m k s = bind m' k' s.
Proof.
  intros Hm Hk. unfold bind. rewrite Hm.
  destruct (m' s) as [[a | e] s']; [now apply Hk | reflexivity].
Qed.

Lemma same_for_each {A} (f g : A -> M unit) (l : list A) :
  (forall a, In a l -> forall s, f a s = g a s) ->
  forall s, for_each l f s = for_each l g s.
Proof.
  induction l as [| a l IH]; intros H s; [reflexivity |].
  cbn [for_each]. apply same_bind.
  - apply H. now left.
  - intros _ s' _. apply IH. intros b Hb. apply H. now right.
Qed.

(** One step through two runs of the same code, one on Tk's canvas and one
    on the recording canvas; a call leaves the goal that Tk accepts its
    colour. *)
Ltac same_step :=
  cbv beta zeta;
  lazymatch goal with
  | |- (if ?c then _ else _) _ = (if ?c then _ else _) _ => destruct c eqn:?
  | |- ret _ _ = ret _ _ => reflexivity
  | |- @canvas_create _ _ _ = @canvas_create _ _ _ =>
      apply tk_create_accepted; cbn [item_fill]
  | |- bind ?m _ _ = bind ?m _ _ =>
      apply same_bind; [reflexivity | intros ? ? _]
  | |- bind _ _ _ = bind _ _ _ => apply same_bind; [| intros ? ? _]
  | |- for_each _ _ _ = for_each _ _ _ => apply same_for_each; intros ? ? ?
  end.

(** ** The layers whose colours Tk always accepts *)

Section Accepted.
Variable named : string -> bool.

Lemma tk_create_holographic_background (s : viz) :
  @create_holographic_background (Tk.canvas named) s
  = create_holographic_background s.
Proof.
  unfold create_holographic_background. repeat same_step.
  apply tk_color_bytes; apply clamp_byte_range.
Qed.

Lemma tk_create_energy_flow_wisps (s : viz) :
  @create_energy_flow_wisps (Tk.canvas named) s = create_energy_flow_wisps s.
Proof.
  unfold create_energy_flow_wisps. repeat same_step.
  apply tk_color_bytes; apply int_of_float_byte.
  - match goal with |- _ <= 80 + 80 * sin ?x < _ =>
      pose proof (SIN_bound x) end. lra.
  - match goal with |- _ <= 120 + 40 * cos ?x < _ =>
      pose proof (COS_bound x) end. lra.
  - match goal with |- _ <= 160 + 45 * sin ?x < _ =>
      pose proof (SIN_bound x) end. lra.
Qed.

Lemma tk_draw_particle (p : Particle.t) (s : viz) :
  @draw_particle (Tk.canvas named) p s = draw_particle p s.
Proof.
  unfold draw_particle. repeat same_step.
  destruct (Particle.energy_type p); reflexivity.
Qed.

Lemma tk_update_particle_systems (s : viz) :
  @update_particle_systems (Tk.canvas named) s = update_particle_systems s.
Proof.
  unfold update_particle_systems. do 3 same_step.
  unfold update_particle. do 2 same_step. apply tk_draw_particle.
Qed.

Lemma tk_create_stress_pattern_overlay (s : viz) :
  @create_stress_pattern_overlay (Tk.canvas named) s
  = create_stress_pattern_overlay s.
Proof.
  unfold create_stress_pattern_overlay. repeat same_step; reflexivity.
Qed.

Lemma tk_create_sparkle_field (s : viz) :
  @create_sparkle_field (Tk.canvas named) s = create_sparkle_field s.
Proof.
  unfold create_sparkle_field. repeat same_step.
  match goal with
  | H : (?sl <? 15)%Z = true |- _ =>
      apply Z.ltb_lt in H;
      assert (B : (0 <= sl < 15)%Z)
        by (split; [apply Z.mod_pos_bound; lia | exact H]);
      clear H; set (life := sl) in *
  end.
  assert (C : (0 <= int_of_float (IZR (200 * (15 - life)) / 15) <= 255)%Z).
  { apply int_of_float_byte.
    assert (0 <= IZR (200 * (15 - life)) <= 3000)
      by (split; apply IZR_le; lia).
    lra. }
  apply tk_color_bytes; exact C.
Qed.

Lemma tk_create_floating_text (s : viz) :
  @create_floating_text (Tk.canvas named) s = create_floating_text s.
Proof.
  unfold create_floating_text. repeat same_step; try reflexivity.
  apply tk_color_bytes; apply int_of_float_byte;
    match goal with |- context [sin ?x] => pose proof (SIN_bound x) end;
    lra.
Qed.

(** The pressure lines get a colour when the pressure is at most 170:
    [150 * 1.7 = 255]. *)
Lemma tk_create_economic_pressure_visualization (s : viz) :
  (economic_pressure (mood_data s) <= 170)%Z ->
  @create_economic_pressure_visualization (Tk.canvas named) s
  = create_economic_pressure_visualization s.
Proof.
  intros Hp. unfold create_economic_pressure_visualization.
  apply same_bind; [reflexivity |]. intros [] s0 E0.
  apply same_bind; [reflexivity |]. intros md s1 E.
  assert (Hmd : md = mood_data s).
  { unfold canvas_delete, modify in E0. unfold get in E.
    injection E0 as <-. injection E as <- _. reflexivity. }
  subst md. clear E0 E.
  repeat same_step.
  apply IZR_le in Hp.
  match goal with
  | |- context [int_of_float ?x] =>
      assert (B : (0 <= int_of_float x <= 255)%Z)
  end.
  { apply int_of_float_byte.
    match goal with |- context [sin ?x] => pose proof (SIN_bound x) end.
    nra. }
  apply tk_color_bytes; [exact B | |];
    (split; [apply Z.div_pos; lia | apply Z.div_le_upper_bound; lia]).
Qed.

End Accepted.

(** ** One ring of the stone, on any canvas *)

Lemma bind_lift_ok {A B} (a : A) (k : A -> M B) (s : viz) :
  bind (lift (Ok a)) k s = k a s.
Proof. reflexivity. Qed.

Lemma bind_ret {A B} (a : A) (k : A -> M B) (s : viz) :
  bind (ret a) k s = k a s.
Proof. reflexivity. Qed.

Lemma ring_index_bound (cs : list string) (fr ring : Z) :
  cs <> [] -> (ring_index (List.length cs) fr ring < List.length cs)%nat.
Proof.
  intros Hcs. unfold ring_index.
  assert (Hn : 0 < INR (List.length cs)).
  { destruct cs; [contradiction |]. apply lt_0_INR. simpl. lia. }
  pose proof (frem_bounds (IZR fr * 0.01 + IZR ring * 0.2) _ Hn) as Hb.
  assert (Hi : (0 <= int_of_float
                       (frem (IZR fr * 0.01 + IZR ring * 0.2)
                             (INR (List.length cs)))
                < Z.of_nat (List.length cs))%Z).
  { apply int_of_float_nonneg. now rewrite <- INR_IZR_INZ. }
  lia.
Qed.

(** With a palette that is not empty, a ring reads its entry, computes
    its colour and, when its size is positive, makes one call. *)
Lemma stone_ring_run `{cv : Canvas} (cs : list string) (sm ec : R)
      (ring : Z) (s : viz) :
  cs <> [] ->
  exists c col,
    nth_error cs (ring_index (List.length cs) (frame s) ring) = Some c
    /\ ring_color c sm (frame s) ring s = (Ok col, s)
    /\ stone_ring cs sm ec ring s
       = (if Rlt_dec 0 (ring_size ec (frame s) ring)
          then canvas_create
                 (ring_oval (center_x s) (center_y s) ec (frame s) ring col)
          else ret tt) s.
Proof.
  intros Hcs.
  pose proof (ring_index_bound cs (frame s) ring Hcs) as Hi.
  destruct (nth_error cs (ring_index (List.length cs) (frame s) ring))
    as [c |] eqn:E; [| apply nth_error_None in E; lia].
  destruct (ring_color_returns c sm (frame s) ring s) as [col Ec].
  exists c, col. split; [reflexivity |]. split; [exact Ec |].
  unfold stone_ring. rewrite !bind_get_eq.
  unfold fmod.
  destruct (Req_dec_T (INR (List.length cs)) 0) as [Z | _].
  { apply (INR_eq _ 0%nat) in Z. apply length_zero_iff_nil in Z.
    contradiction. }
  rewrite bind_lift_ok. fold (ring_index (List.length cs) (frame s) ring).
  rewrite E, bind_ret, (bind_run _ _ _ _ _ Ec). reflexivity.
Qed.

Lemma stone_ring_empty `{cv : Canvas} (sm ec : R) (ring : Z) (s : viz) :
  stone_ring [] sm ec ring s = (Raise ZeroDivisionError, s).
Proof.
  unfold stone_ring. rewrite !bind_get_eq. unfold fmod. cbn [List.length INR].
  destruct (Req_dec_T 0 0) as [_ | N]; [reflexivity | contradiction].
Qed.

(** The colour of a ring is its entry, when the code does not convert it,
    or three bytes in hexadecimal. *)
Lemma ring_color_cases (c : string) (sm : R) (fr ring : Z) (s s' : viz) col :
  ring_color c sm fr ring s = (Ok col, s') ->
  (parseable c = false /\ col = c)
  \/ (parseable c = true
      /\ exists r g b,
           (0 <= r <= 255)%Z /\ (0 <= g <= 255)%Z /\ (0 <= b <= 255)%Z
           /\ col = hex_color r g b).
Proof.
  unfold parseable, ring_color, try_except, bind, ret, raise.
  destruct (String.length c =? 7)%nat;
    [| intros H; left; split; [reflexivity | congruence]].
  destruct (int16 (slice 1 3 c));
    [| intros H; left; split; [reflexivity | congruence]].
  destruct (int16 (slice 3 5 c));
    [| intros H; left; split; [reflexivity | congruence]].
  destruct (int16 (slice 5 7 c));
    [| intros H; left; split; [reflexivity | congruence]].
  intros H. right. split; [reflexivity |]. injection H as <- _.
  do 3 eexists. repeat split; try reflexivity; apply clamped_byte.
Qed.

(** A colour of the form [#rrggbb] is converted. *)
Lemma rrggbb_parseable (c : string) : rrggbb c = true -> parseable c = true.
Proof.
  unfold rrggbb, parseable. intros H.
  destruct c as [| a c]; [discriminate |]. cbn [chars list_ascii_of_string] in H.
  destruct a as [[] [] [] [] [] [] [] []]; try discriminate.
  apply andb_prop in H. destruct H as [L F].
  destruct c as [| c1 [| c2 [| c3 [| c4 [| c5 [| c6 [| c7 c]]]]]]];
    try discriminate.
  cbn [list_ascii_of_string forallb] in F.
  apply andb_prop in F. destruct F as [F1 F].
  apply andb_prop in F. destruct F as [F2 F].
  apply andb_prop in F. destruct F as [F3 F].
  apply andb_prop in F. destruct F as [F4 F].
  apply andb_prop in F. destruct F as [F5 F].
  apply andb_prop in F. destruct F as [F6 _].
  assert (G : forall x y,
             match hex_value x with Some _ => true | None => false end = true ->
             match hex_value y with Some _ => true | None => false end = true ->
             exists n, int16 (String x (String y EmptyString)) = Some n).
  { intros x y Hx Hy.
    pose (ok := fun a : ascii =>
      match hex_value a with Some _ => true | None => false end).
    pose (check := fun xy : nat * nat =>
      let x := ascii_of_nat (fst xy) in
      let y := ascii_of_nat (snd xy) in
      implb (ok x && ok y)
            match int16 (String x (String y EmptyString)) with
            | Some _ => true
            | None => false
            end).
    assert (A : forallb check (list_prod (seq 0 256) (seq 0 256)) = true)
      by (vm_compute; reflexivity).
    rewrite forallb_forall in A.
    specialize (A (nat_of_ascii x, nat_of_ascii y)).
    unfold check in A. cbn [fst snd] in A.
    rewrite !ascii_nat_embedding in A. unfold ok in A. rewrite Hx, Hy in A.
    cbn [andb implb] in A.
    destruct (int16 _) as [n |]; [now exists n |].
    discriminate A.
    apply in_prod; apply in_seq; pose proof (nat_ascii_bounded x);
      pose proof (nat_ascii_bounded y); lia. }
  cbn [String.length Nat.eqb andb].
  change (slice 1 3 (String "#" (String c1 (String c2 (String c3
            (String c4 (String c5 (String c6 ""))))))))
    with (String c1 (String c2 EmptyString)).
  change (slice 3 5 (String "#" (String c1 (String c2 (String c3
            (String c4 (String c5 (String c6 ""))))))))
    with (String c3 (String c4 EmptyString)).
  change (slice 5 7 (String "#" (String c1 (String c2 (String c3
            (String c4 (String c5 (String c6 ""))))))))
    with (String c5 (String c6 EmptyString)).
  destruct (G c1 c2 F1 F2) as [n1 ->].
  destruct (G c3 c4 F3 F4) as [n2 ->].
  destruct (G c5 c6 F5 F6) as [n3 ->].
  reflexivity.
Qed.

(** Ring 0 at frame 0 reads the first entry, and the first ring has a
    positive size at every frame while the compression is below 4. *)
Lemma ring_index_origin (n : nat) : ring_index n 0 0 = 0%nat.
Proof.
  unfold ring_index, frem.
  replace (IZR 0 * 0.01 + IZR 0 * 0.2) with 0 by lra.
  replace (0 / INR n) with 0 by (unfold Rdiv; ring).
  change 0 with (IZR 0) at 2. rewrite ZfloorZ.
  replace (0 - IZR 0 * INR n) with (IZR 0) by (simpl; ring).
  unfold int_of_float.
  destruct (Rle_dec 0 (IZR 0)) as [_ | N]; [now rewrite ZfloorZ |].
  exfalso. apply N. simpl. lra.
Qed.

Lemma ring_size_first (ec : R) (fr : Z) :
  0 <= ec < 4 -> 0 < ring_size ec fr 0.
Proof.
  intros H. unfold ring_size.
  pose proof (SIN_bound (IZR fr * 0.04 + IZR 0 * 0.3)).
  pose proof (COS_bound (IZR fr * 0.06 + IZR 0 * 0.2)).
  apply Rmult_lt_0_compat; lra.
Qed.

(** ** The stone core on Tk's canvas *)

Section TkStone.
Variable named : string -> bool.

(** Tk accepts the colour of a ring unless it is an entry that the code
    does not convert and Tk does not know. *)
Lemma tk_ring_color (cs : list string) (c : string) (sm : R) (fr ring : Z)
      (s : viz) col :
  raw_entries_accepted named cs ->
  In c cs ->
  ring_color c sm fr ring s = (Ok col, s) ->
  Tk.color named col = true.
Proof.
  intros Ha Hin Hc. unfold raw_entries_accepted in Ha.
  rewrite Forall_forall in Ha.
  destruct (ring_color_cases _ _ _ _ _ _ _ Hc)
    as [(Hp & ->) | (_ & r & g & b & Hr & Hg & Hb & ->)].
  - now apply Ha.
  - now apply tk_color_bytes.
Qed.

Lemma tk_stone_ring_accepted (cs : list string) (sm ec : R) (ring : Z)
      (s : viz) :
  raw_entries_accepted named cs ->
  @stone_ring (Tk.canvas named) cs sm ec ring s = stone_ring cs sm ec ring s.
Proof.
  intros Ha. destruct cs as [| c0 cs'] eqn:Ecs.
  { now rewrite !stone_ring_empty. }
  rewrite <- Ecs in *.
  assert (Hcs : cs <> []) by (rewrite Ecs; discriminate).
  destruct (@stone_ring_run (Tk.canvas named) cs sm ec ring s Hcs)
    as (c & col & E1 & E2 & ->).
  destruct (@stone_ring_run recording cs sm ec ring s Hcs)
    as (c' & col' & E1' & E2' & ->).
  assert (c' = c) by congruence. subst c'.
  assert (col' = col) by congruence. subst col'.
  destruct (Rlt_dec 0 (ring_size ec (frame s) ring)); [| reflexivity].
  apply tk_create_accepted. cbn [item_fill ring_oval].
  apply (tk_ring_color cs c sm (frame s) ring s col Ha);
    [eapply nth_error_In, E1 | exact E2].
Qed.

Lemma tk_create_mood_stone_core_accepted (s : viz) :
  raw_entries_accepted named (colors (mood_data s)) ->
  @create_mood_stone_core (Tk.canvas named) s = create_mood_stone_core s.
Proof.
  intros Ha. unfold create_mood_stone_core.
  apply same_bind; [reflexivity |]. intros [] s0 E0.
  apply same_bind; [reflexivity |]. intros md s1 E.
  assert (Hmd : md = mood_data s).
  { unfold canvas_delete, modify in E0. unfold get in E.
    injection E0 as <-. injection E as <- _. reflexivity. }
  subst md. clear E0 E. cbv zeta.
  apply same_for_each. intros ring _ s2.
  now apply tk_stone_ring_accepted.
Qed.

(** A ring of positive size whose entry the code does not convert and Tk
    does not know stops the loop with [TclError]; the rings before it
    have changed nothing but the canvas. *)
Lemma tk_stone_rings_rejected (cs : list string) (sm ec : R) (fr ring : Z)
      (c : string) :
  nth_error cs (ring_index (List.length cs) fr ring) = Some c ->
  parseable c = false ->
  Tk.color named c = false ->
  0 < ring_size ec fr ring ->
  forall (l : list Z) (s : viz),
    In ring l ->
    frame s = fr ->
    exists s',
      for_each l (@stone_ring (Tk.canvas named) cs sm ec) s
      = (Raise TclError, s')
      /\ clock s' = clock s.
Proof.
  intros Hn Hp Hk Hpos.
  assert (Hcs : cs <> []) by (intros ->; now destruct (ring_index _ _ _)).
  induction l as [| r l IH]; intros s Hin Hfr; [contradiction |].
  cbn [for_each].
  destruct (@stone_ring_run (Tk.canvas named) cs sm ec r s Hcs)
    as (c1 & col & E1 & E2 & E).
  assert (Hnext : r <> ring -> forall s1,
            @stone_ring (Tk.canvas named) cs sm ec r s = (Ok tt, s1) ->
            clock s1 = clock s -> frame s1 = fr ->
            exists s',
              bind (@stone_ring (Tk.canvas named) cs sm ec r)
                   (fun _ =>
                      for_each l (@stone_ring (Tk.canvas named) cs sm ec)) s
              = (Raise TclError, s')
              /\ clock s' = clock s).
  { intros Hr s1 Es Hc1 Hf1.
    destruct Hin as [-> | Hin]; [contradiction |].
    destruct (IH s1 Hin Hf1) as (s' & E' & Hc').
    exists s'. rewrite (bind_run _ _ _ _ _ Es).
    split; [exact E' | congruence]. }
  destruct (Rlt_dec 0 (ring_size ec (frame s) r)) as [Hsize | Hsize].
  - destruct (Tk.color named col) eqn:Ecol.
    + rewrite tk_create_accepted in E by exact Ecol.
      apply Hnext
        with (s1 := set_canvas s
                      (canvas s
                       ++ [ring_oval (center_x s) (center_y s) ec (frame s) r
                                     col]));
        [| exact E | reflexivity | exact Hfr].
      intros ->. rewrite Hfr in E1, E2.
      assert (c1 = c) by congruence. subst c1.
      rewrite (ring_color_raw c sm fr ring s Hp) in E2.
      congruence.
    + rewrite tk_create_rejected in E by exact Ecol.
      exists s. unfold bind. rewrite E. split; reflexivity.
  - apply Hnext with (s1 := s); [| exact E | reflexivity | exact Hfr].
    intros ->. rewrite Hfr in Hsize. contradiction.
Qed.

Lemma tk_create_mood_stone_core_rejected (s : viz) (ring : Z) (c : string) :
  In ring (range 10) ->
  nth_error (colors (mood_data s))
            (ring_index (List.length (colors (mood_data s))) (frame s) ring)
  = Some c ->
  parseable c = false ->
  Tk.color named c = false ->
  0 < ring_size (IZR (economic_pressure (mood_data s)) / 100) (frame s) ring ->
  exists s',
    @create_mood_stone_core (Tk.canvas named) s = (Raise TclError, s')
    /\ clock s' = clock s.
Proof.
  intros Hin Hn Hp Hk Hpos.
  unfold create_mood_stone_core.
  set (s0 := set_canvas s
               (filter (fun i => negb (String.eqb (item_tags i) "stone_core"))
                       (canvas s))).
  destruct (tk_stone_rings_rejected
              (colors (mood_data s)) (IZR (stress_level (mood_data s)) / 100)
              (IZR (economic_pressure (mood_data s)) / 100) (frame s) ring c
              Hn Hp Hk Hpos (range 10) s0 Hin eq_refl) as (s' & E & Hc).
  exists s'. split; [exact E | exact Hc].
Qed.

End TkStone.

(** ** A tick on Tk's canvas *)

Lemma run_untouched {A X} (f : viz -> X) (m : M A) (s : viz) r s' :
  untouched f m -> m s = (r, s') -> f s' = f s.
Proof. intros U E. specialize (U s). unfold exec in U. now rewrite E in U. Qed.

(** When Tk accepts every colour of the pressure lines and of the palette,
    a tick on Tk's canvas is the tick on the recording canvas. *)
Lemma tk_animate_accepted (named : string -> bool) (s : viz) :
  (economic_pressure (mood_data s) <= 170)%Z ->
  raw_entries_accepted named (colors (mood_data s)) ->
  @animate (Tk.canvas named) s = animate s.
Proof.
  intros Hp Ha. unfold animate. rewrite !bind_get_eq.
  destruct (negb (running s)); [reflexivity |].
  assert (U1 : untouched mood_data create_holographic_background)
    by (apply create_holographic_background_untouched; reflexivity).
  assert (U2 : untouched mood_data create_economic_pressure_visualization)
    by (apply create_economic_pressure_visualization_untouched;
        reflexivity).
  assert (U3 : untouched mood_data create_energy_flow_wisps)
    by (apply create_energy_flow_wisps_untouched; reflexivity).
  assert (U4 : untouched mood_data update_particle_systems)
    by (apply update_particle_systems_untouched; reflexivity).
  apply same_bind; [apply tk_create_holographic_background |].
  intros [] s1 E1.
  pose proof (run_untouched _ _ _ _ _ U1 E1) as M1.
  apply same_bind.
  { apply tk_create_economic_pressure_visualization. now rewrite M1. }
  intros [] s2 E2.
  pose proof (run_untouched _ _ _ _ _ U2 E2) as M2.
  apply same_bind; [apply tk_create_energy_flow_wisps |].
  intros [] s3 E3.
  pose proof (run_untouched _ _ _ _ _ U3 E3) as M3.
  apply same_bind; [apply tk_update_particle_systems |].
  intros [] s4 E4.
  pose proof (run_untouched _ _ _ _ _ U4 E4) as M4.
  apply same_bind.
  { apply tk_create_mood_stone_core_accepted.
    now rewrite M4, M3, M2, M1. }
  intros [] s5 _.
  apply same_bind; [apply tk_create_stress_pattern_overlay |].
  intros [] s6 _.
  apply same_bind; [apply tk_create_sparkle_field |].
  intros [] s7 _.
  apply same_bind; [apply tk_create_floating_text |].
  intros [] s8 _. reflexivity.
Qed.

(** The tick, cut at [create_mood_stone_core]: from a running state whose
    particles have a ['max_life'] other than zero and whose pressure is at
    most 170, the four layers before it return on both canvases, with the
    same state. *)
Lemma tick_reaches_stone_core (named : string -> bool) (s : viz) :
  running s = true ->
  Forall (fun q => Particle.max_life q <> 0) (particles s) ->
  (economic_pressure (mood_data s) <= 170)%Z ->
  exists s4,
    keeps s s4
    /\ clock s4 = clock s
    /\ animate s = from_stone_core s4
    /\ @animate (Tk.canvas named) s = @from_stone_core (Tk.canvas named) s4.
Proof.
  intros Hr Hm Hp.
  pose proof (keeps_insensitive s) as HI.
  assert (U1 : untouched clock create_holographic_background)
    by (apply create_holographic_background_untouched; reflexivity).
  assert (U2 : untouched clock create_economic_pressure_visualization)
    by (apply create_economic_pressure_visualization_untouched;
        reflexivity).
  assert (U3 : untouched clock create_energy_flow_wisps)
    by (apply create_energy_flow_wisps_untouched; reflexivity).
  assert (U4 : untouched clock update_particle_systems)
    by (apply update_particle_systems_untouched; reflexivity).
  pose proof (create_holographic_background_inv
                (keeps s) True HI s (keeps_refl s)) as W1.
  destruct (wp_returns _ _ _ _ W1 Logic.I) as [[] E1].
  pose proof (wp_exec _ _ _ _ W1) as K1.
  pose proof (U1 s) as C1.
  set (s1 := exec create_holographic_background s) in *.
  pose proof (create_economic_pressure_visualization_inv
                (keeps s) True HI s1 K1) as W2.
  destruct (wp_returns _ _ _ _ W2 Logic.I) as [[] E2].
  pose proof (wp_exec _ _ _ _ W2) as K2.
  pose proof (U2 s1) as C2.
  set (s2 := exec create_economic_pressure_visualization s1) in *.
  pose proof (create_energy_flow_wisps_inv (keeps s) True s2 HI K2) as W3.
  destruct (wp_returns _ _ _ _ W3 Logic.I) as [[] E3].
  pose proof (wp_exec _ _ _ _ W3) as K3.
  pose proof (U3 s2) as C3.
  set (s3 := exec create_energy_flow_wisps s2) in *.
  pose proof (update_particle_systems_keeps s True s3 (fun _ => Hm) K3) as W4.
  destruct (wp_returns _ _ _ _ W4 Logic.I) as [[] E4].
  pose proof (wp_exec _ _ _ _ W4) as K4.
  pose proof (U4 s3) as C4.
  set (s4 := exec update_particle_systems s3) in *.
  exists s4. split; [exact K4 |]. split; [congruence |]. split.
  - unfold animate. rewrite bind_get_eq, Hr. cbn [negb].
    rewrite (bind_run _ _ _ _ _ E1), (bind_run _ _ _ _ _ E2),
      (bind_run _ _ _ _ _ E3), (bind_run _ _ _ _ _ E4).
    reflexivity.
  - assert (T1 : @create_holographic_background (Tk.canvas named) s
                 = (Ok tt, s1))
      by (rewrite tk_create_holographic_background; exact E1).
    assert (T2 : @create_economic_pressure_visualization (Tk.canvas named) s1
                 = (Ok tt, s2)).
    { rewrite tk_create_economic_pressure_visualization; [exact E2 |].
      now rewrite (keeps_mood _ _ K1). }
    assert (T3 : @create_energy_flow_wisps (Tk.canvas named) s2 = (Ok tt, s3))
      by (rewrite tk_create_energy_flow_wisps; exact E3).
    assert (T4 : @update_particle_systems (Tk.canvas named) s3 = (Ok tt, s4))
      by (rewrite tk_update_particle_systems; exact E4).
    unfold animate. rewrite bind_get_eq, Hr. cbn [negb].
    rewrite (bind_run _ _ _ _ _ T1), (bind_run _ _ _ _ _ T2),
      (bind_run _ _ _ _ _ T3), (bind_run _ _ _ _ _ T4).
    reflexivity.
Qed.

(** From a state that a ring of positive size makes Tk reject, the tick on
    Tk's canvas raises [TclError] in [create_mood_stone_core]: the frame
    counter stays and no timer is registered. *)
Lemma tk_animate_rejected (named : string -> bool) (s : viz) (ring : Z)
      (c : string) :
  running s = true ->
  Forall (fun q => Particle.max_life q <> 0) (particles s) ->
  (economic_pressure (mood_data s) <= 170)%Z ->
  In ring (range 10) ->
  nth_error (colors (mood_data s))
            (ring_index (List.length (colors (mood_data s))) (frame s) ring)
  = Some c ->
  parseable c = false ->
  Tk.color named c = false ->
  0 < ring_size (IZR (economic_pressure (mood_data s)) / 100) (frame s) ring ->
  exists s',
    @animate (Tk.canvas named) s = (Raise TclError, s')
    /\ clock s' = clock s.
Proof.
  intros Hr Hm Hp Hin Hn Hpar Hk Hpos.
  destruct (tick_reaches_stone_core named s Hr Hm Hp)
    as (s4 & K4 & C4 & _ & ->).
  assert (F4 : frame s4 = frame s) by (unfold clock in C4; congruence).
  destruct (tk_create_mood_stone_core_rejected named s4 ring c Hin)
    as (s' & E & C'); try assumption.
  - now rewrite (keeps_mood _ _ K4), F4.
  - now rewrite (keeps_mood _ _ K4), F4.
  - exists s'. split; [| congruence].
    unfold from_stone_core, bind. now rewrite E.
Qed.

(** ** The oval of a ring on the recording canvas *)

Lemma in_canvas_bind {A B} (i : item) (m : M A) (k : A -> M B) (s : viz) :
  In i (canvas (exec m s)) ->
  (forall a s', In i (canvas s') -> In i (canvas (exec (k a) s'))) ->
  In i (canvas (exec (bind m k) s)).
Proof.
  intros Hm Hk.
  destruct (exec_bind_cases m k s) as [E | (a & E)]; rewrite E.
  - exact Hm.
  - now apply Hk.
Qed.

Lemma redraws_persists (tag : string) (P : item -> Prop) (k : nat)
      (L : M unit) (s : viz) (i : item) :
  redraws tag P k L s ->
  is_tagged tag i = false ->
  In i (canvas s) -> In i (canvas (exec L s)).
Proof.
  intros (emitted & E & _) Ht Hin. rewrite E.
  apply in_or_app. left. apply filter_In. split; [exact Hin |].
  now rewrite Ht.
Qed.

Lemma stone_rings_draw (cs : list string) (sm ec : R) (fr ring : Z)
      (cx cy : Z) (c col : string) :
  nth_error cs (ring_index (List.length cs) fr ring) = Some c ->
  (forall s, ring_color c sm fr ring s = (Ok col, s)) ->
  0 < ring_size ec fr ring ->
  forall (l : list Z) (s : viz),
    In ring l ->
    frame s = fr -> center_x s = cx -> center_y s = cy ->
    In (ring_oval cx cy ec fr ring col)
       (canvas (exec (for_each l (stone_ring cs sm ec)) s)).
Proof.
  intros Hn Hc Hpos.
  assert (Hcs : cs <> []) by (intros ->; now destruct (ring_index _ _ _)).
  induction l as [| r l IH]; intros s Hin Hfr Hx Hy; [contradiction |].
  cbn [for_each].
  destruct (@stone_ring_run recording cs sm ec r s Hcs)
    as (c1 & col1 & E1 & E2 & E).
  destruct (Z.eq_dec r ring) as [-> | Hne].
  - rewrite Hfr in E, E1, E2.
    assert (c1 = c) by congruence. subst c1.
    assert (col1 = col) by (rewrite Hc in E2; congruence). subst col1.
    destruct (Rlt_dec 0 (ring_size ec fr ring)) as [_ | N];
      [| contradiction].
    rewrite Hx, Hy in E.
    apply in_canvas_bind.
    + unfold exec. rewrite E. cbn. apply in_or_app. right. now left.
    + intros _ s' Hs'.
      destruct (stone_rings_emit cs sm ec l s') as (e & -> & _).
      apply in_or_app. now left.
  - destruct Hin as [-> | Hin]; [contradiction |].
    assert (Es : exists s1,
               stone_ring cs sm ec r s = (Ok tt, s1)
               /\ frame s1 = fr /\ center_x s1 = cx /\ center_y s1 = cy).
    { destruct (Rlt_dec 0 (ring_size ec (frame s) r)).
      - eexists. split; [exact E |]. repeat split; assumption.
      - exists s. split; [exact E |]. repeat split; assumption. }
    destruct Es as (s1 & Es & F1 & X1 & Y1).
    unfold exec. rewrite (bind_run _ _ _ _ _ Es).
    now apply IH.
Qed.

Lemma create_mood_stone_core_draws (s : viz) (ring : Z) (c col : string) :
  In ring (range 10) ->
  nth_error (colors (mood_data s))
            (ring_index (List.length (colors (mood_data s))) (frame s) ring)
  = Some c ->
  (forall s', ring_color c (IZR (stress_level (mood_data s)) / 100)
                         (frame s) ring s' = (Ok col, s')) ->
  0 < ring_size (IZR (economic_pressure (mood_data s)) / 100) (frame s) ring ->
  In (ring_oval (center_x s) (center_y s)
                (IZR (economic_pressure (mood_data s)) / 100) (frame s) ring
                col)
     (canvas (exec create_mood_stone_core s)).
Proof.
  intros Hin Hn Hc Hpos.
  unfold create_mood_stone_core.
  set (s0 := set_canvas s
               (filter (fun i => negb (String.eqb (item_tags i) "stone_core"))
                       (canvas s))).
  apply (stone_rings_draw (colors (mood_data s)) _ _ (frame s) ring
           (center_x s) (center_y s) c col Hn Hc Hpos (range 10) s0 Hin);
    reflexivity.
Qed.

(** What the layers after the stone core leave of it. *)
Lemma from_stone_core_draws (s : viz) (i : item) :
  item_tags i = "stone_core"%string ->
  In i (canvas (exec create_mood_stone_core s)) ->
  In i (canvas (exec from_stone_core s)).
Proof.
  intros Ht Hin. unfold from_stone_core.
  assert (T : forall tag, String.eqb "stone_core" tag = false ->
                          is_tagged tag i = false).
  { intros tag H. unfold is_tagged. now rewrite Ht. }
  apply in_canvas_bind; [exact Hin |]. intros _ s5 H5.
  apply in_canvas_bind.
  { eapply redraws_persists;
      [apply create_stress_pattern_overlay_redraws | now apply T | exact H5]. }
  intros _ s6 H6.
  apply in_canvas_bind.
  { eapply redraws_persists;
      [apply create_sparkle_field_redraws | now apply T | exact H6]. }
  intros _ s7 H7.
  apply in_canvas_bind.
  { eapply redraws_persists;
      [apply (create_floating_text_redraws (mood_data s7))
      | now apply T | exact H7]. }
  intros _ s8 H8. exact H8.
Qed.

(** The tick on the recording canvas leaves the oval of every ring of
    positive size on the canvas. *)
Lemma animate_draws_ring (s : viz) (ring : Z) (c col : string) :
  running s = true ->
  Forall (fun q => Particle.max_life q <> 0) (particles s) ->
  (economic_pressure (mood_data s) <= 170)%Z ->
  In ring (range 10) ->
  nth_error (colors (mood_data s))
            (ring_index (List.length (colors (mood_data s))) (frame s) ring)
  = Some c ->
  (forall s', ring_color c (IZR (stress_level (mood_data s)) / 100)
                         (frame s) ring s' = (Ok col, s')) ->
  0 < ring_size (IZR (economic_pressure (mood_data s)) / 100) (frame s) ring ->
  In (ring_oval (center_x s) (center_y s)
                (IZR (economic_pressure (mood_data s)) / 100) (frame s) ring
                col)
     (canvas (exec animate s)).
Proof.
  intros Hr Hm Hp Hin Hn Hc Hpos.
  destruct (tick_reaches_stone_core (fun _ => true) s Hr Hm Hp)
    as (s4 & K4 & C4 & E & _).
  assert (F4 : frame s4 = frame s) by (unfold clock in C4; congruence).
  unfold exec. rewrite E. apply from_stone_core_draws; [reflexivity |].
  rewrite <- (keeps_mood _ _ K4), <- (keeps_center_x _ _ K4),
    <- (keeps_center_y _ _ K4), <- F4.
  apply (create_mood_stone_core_draws s4 ring c col Hin).
  - now rewrite (keeps_mood _ _ K4), F4.
  - now rewrite (keeps_mood _ _ K4), F4.
  - now rewrite (keeps_mood _ _ K4), F4.
Qed.

(** * The claims *)

(** C1.  After [initialize_particles], no number of ticks changes the size
    of [particles], [energy_wisps] or [stress_fragments]; every index of
    [particles] keeps the particle it had (same ['max_life'], ['size'] and
    ['energy_type']), so a respawn rewrites a particle where it is. *)
Theorem C1_collection_sizes_invariant :
  forall (md : mood) (g : Random.t) (n : nat),
    let s0 := snd (init md g) in
    let s := ticks n s0 in
    List.length (particles s) = List.length (particles s0)
    /\ List.length (energy_wisps s) = List.length (energy_wisps s0)
    /\ List.length (stress_fragments s) = List.length (stress_fragments s0)
    /\ map particle_const (particles s) = map particle_const (particles s0).
Proof.
  intros md g n s0 s.
  pose proof (ticks_keeps n s0) as K. fold s in K.
  destruct (keeps_lengths _ _ K) as (Hp & Hw & Hf).
  repeat split; try assumption. apply (keeps_particles _ _ K).
Qed.

(** C2, the claim as stated fails.  With the demo profile and every draw
    equal to 3/4, the first fragment starts away from its target with a
    positive speed, and the first tick leaves it where it was. *)
Lemma C2_counterexample :
  let s := snd (init demo_mood (steady (3 / 4))) in
  exists f f',
    nth_error (stress_fragments s) 0 = Some f
    /\ nth_error (stress_fragments (exec animate s)) 0 = Some f'
    /\ 0 < fragment_distance f
    /\ 0 < Fragment.speed f
    /\ ~ advanced_toward_target f f'.
Proof.
  cbv zeta. rewrite init_state.
  rewrite (keeps_fragments _ _ (animate_keeps _)).
  unfold initialized. cbn [stress_fragments].
  rewrite fragment_count_demo.
  change (Z.to_nat 22) with 22%nat. cbn [seq map nth_error].
  eexists. eexists. split; [reflexivity |]. split; [reflexivity |].
  split; [| split].
  - unfold fragment_distance, fragment_of_draws, steady.
    cbn [Fragment.x Fragment.y Fragment.target_x Fragment.target_y
         Random.draws].
    apply sqrt_lt_R0. nra.
  - unfold fragment_of_draws, steady. cbn [Fragment.speed Random.draws]. lra.
  - unfold advanced_toward_target. apply Rlt_irrefl.
Qed.

(** C2, as amended.  No tick reads or writes [stress_fragments]: after any
    number of ticks every fragment is the dict that [initialize_particles]
    appended, at the same position. *)
Theorem C2_fragments_never_move :
  forall (s : viz) (n : nat),
    stress_fragments (exec animate s) = stress_fragments s
    /\ stress_fragments (ticks n s) = stress_fragments s.
Proof.
  intros s n. split.
  - apply (keeps_fragments _ _ (animate_keeps s)).
  - apply (keeps_fragments _ _ (ticks_keeps n s)).
Qed.

(** C3.  In a running state whose particles all have a ['max_life'] other
    than zero, let [p] be the particle at index [i] and let its life reach
    zero or less in this tick ([life - 1 <= 0]).  After the tick the
    collection has the same length and holds at index [i] a particle with
    the same ['max_life'], ['size'] and ['energy_type'], whose life is that
    ['max_life'], whose distance to the centre lies in [150, 250] and whose
    two velocity components lie in [-1, 1]. *)
Theorem C3_respawn_in_place (s : viz) (i : nat) (p : Particle.t) :
  running s = true ->
  Random.valid (generator s) ->
  Forall (fun q => Particle.max_life q <> 0) (particles s) ->
  nth_error (particles s) i = Some p ->
  Particle.life p - 1 <= 0 ->
  let s' := exec animate s in
  exists p',
    nth_error (particles s') i = Some p'
    /\ List.length (particles s') = List.length (particles s)
    /\ particle_const p' = particle_const p
    /\ Particle.life p' = Particle.max_life p
    /\ 150 <= center_distance s' p' <= 250
    /\ -1 <= Particle.vx p' <= 1
    /\ -1 <= Particle.vy p' <= 1.
Proof.
  intros Hr Hv Hm Hn Hl s'. subst s'.
  destruct (animate_particles s Hr) as (s1 & K1 & P1 & E).
  rewrite <- P1 in Hm, Hn.
  destruct (update_particle_systems_at s1 i p Hm Hn) as (s_i & Ki & Ni & Ei).
  destruct (update_particle_respawns s_i i p) as (p' & N & _ & Cp & L & D & V);
    auto.
  { eapply valid_keeps; [| exact Hv]. eapply keeps_trans; eassumption. }
  exists p'.
  split; [now rewrite E, Ei |].
  split; [apply (keeps_lengths _ _ (animate_keeps s)) |].
  split; [exact Cp |]. split; [exact L |]. split; [| exact V].
  pose proof (keeps_trans _ _ _ K1 Ki) as Ksi.
  pose proof (update_particle_exec_keeps s_i i p Ni) as Ku.
  rewrite (center_distance_keeps _ _ p' (animate_keeps s)).
  rewrite <- (center_distance_keeps _ _ p' (keeps_trans _ _ _ Ksi Ku)).
  exact D.
Qed.

(** C3 at a state that holds one particle, whose life is 1. *)
Lemma C3_witness :
  let s := lone_particle spent_particle in
  let s' := exec animate s in
  running s = true
  /\ Random.valid (generator s)
  /\ Forall (fun q => Particle.max_life q <> 0) (particles s)
  /\ nth_error (particles s) 0 = Some spent_particle
  /\ Particle.life spent_particle - 1 <= 0
  /\ exists p',
       nth_error (particles s') 0 = Some p'
       /\ List.length (particles s') = List.length (particles s)
       /\ particle_const p' = particle_const spent_particle
       /\ Particle.life p' = Particle.max_life spent_particle
       /\ 150 <= center_distance s' p' <= 250
       /\ -1 <= Particle.vx p' <= 1
       /\ -1 <= Particle.vy p' <= 1.
Proof.
  intros s s'.
  assert (R : running s = true) by reflexivity.
  assert (V : Random.valid (generator s)).
  { intros k. simpl. lra. }
  assert (F : Forall (fun q => Particle.max_life q <> 0) (particles s)).
  { constructor; [simpl; lra | constructor]. }
  assert (N : nth_error (particles s) 0 = Some spent_particle)
    by reflexivity.
  assert (L : Particle.life spent_particle - 1 <= 0).
  { simpl. lra. }
  split; [exact R |]. split; [exact V |]. split; [exact F |].
  split; [exact N |]. split; [exact L |].
  exact (C3_respawn_in_place s 0 spent_particle R V F N L).
Defined.

(** C4.  [initialize_particles] returns and has appended exactly
    [max(50, min(200, 150 - stress_level))] particles, whatever the profile
    and the draws: 75 for a stress level of 75 and 150 for a stress level
    of 0. *)
Theorem C4_particle_count :
  forall (md : mood) (g : Random.t),
    fst (init md g) = Ok tt
    /\ Z.of_nat (List.length (particles (snd (init md g))))
       = Z.max 50 (Z.min 200 (150 - stress_level md))
    /\ (forall nm cs e l pt,
          List.length
            (particles (snd (init (mk_mood nm cs 75 e l pt) g))) = 75%nat)
    /\ (forall nm cs e l pt,
          List.length
            (particles (snd (init (mk_mood nm cs 0 e l pt) g))) = 150%nat).
Proof.
  intros md g. rewrite init_run. split; [reflexivity |].
  split; [| split]; intros; cbn [snd]; try rewrite init_state;
    rewrite (proj1 (initialized_lengths _ g)); try reflexivity.
  unfold particle_count. lia.
Qed.

(** C5.  [initialize_particles] appends exactly
    [max(6, 12 - economic_pressure // 10)] wisps, and no number of ticks
    changes that count: 6 wisps for a pressure of 85 and 12 for a pressure
    of 0. *)
Theorem C5_wisp_count :
  forall (md : mood) (g : Random.t) (n : nat),
    Z.of_nat (List.length (energy_wisps (snd (init md g))))
    = Z.max 6 (12 - economic_pressure md / 10)
    /\ List.length (energy_wisps (ticks n (snd (init md g))))
       = List.length (energy_wisps (snd (init md g)))
    /\ (forall nm cs st l pt,
          List.length
            (energy_wisps (snd (init (mk_mood nm cs st 85 l pt) g))) = 6%nat)
    /\ (forall nm cs st l pt,
          List.length
            (energy_wisps (snd (init (mk_mood nm cs st 0 l pt) g))) = 12%nat).
Proof.
  intros md g n. split; [| split; [| split]].
  - rewrite init_state, (proj1 (proj2 (initialized_lengths _ g))).
    unfold wisp_count. lia.
  - apply (keeps_lengths _ _ (ticks_keeps n _)).
  - intros. now rewrite init_state, (proj1 (proj2 (initialized_lengths _ g))).
  - intros. now rewrite init_state, (proj1 (proj2 (initialized_lengths _ g))).
Qed.

(** C6, the claim as stated fails.  On the state that [on_closing] leaves,
    a second [on_closing] is not a no-op: it does not return, it raises
    [TclError], as [root.destroy()] does on an application that has been
    destroyed. *)
Lemma C6_counterexample :
  let s := snd (init demo_mood (steady (1 / 2))) in
  let stopped := exec on_closing s in
  on_closing s = (Ok tt, stopped)
  /\ on_closing stopped = (Raise TclError, stopped).
Proof.
  cbv zeta. rewrite init_state. split; reflexivity.
Qed.

(** C6, as amended.  [on_closing] leaves a state with [running] cleared
    and the application destroyed, and it returns only when the
    application was not destroyed before.  A second call leaves that
    state as it is and raises [TclError].  On that state the per-tick
    entry point returns at once, on any canvas, and changes nothing (the
    frame counter and the queue of registered callbacks included), for
    any number of calls. *)
Theorem C6_stop_twice :
  forall (s : viz) (n : nat),
    let stopped := exec on_closing s in
    running stopped = false
    /\ root_destroyed stopped = true
    /\ fst (on_closing s)
       = (if root_destroyed s then Raise TclError else Ok tt)
    /\ on_closing stopped = (Raise TclError, stopped)
    /\ (forall cv : Canvas, @animate cv stopped = (Ok tt, stopped))
    /\ (forall cv : Canvas, @ticks cv n stopped = stopped).
Proof.
  intros s n stopped.
  assert (R : running stopped = false /\ root_destroyed stopped = true).
  { subst stopped. unfold exec, on_closing, root_destroy, bind, get, modify.
    destruct s as [rd aq w h cv fr rn cx cy md ps ws fs g].
    destruct rd; split; reflexivity. }
  destruct R as [R D].
  assert (A : forall cv : Canvas, @animate cv stopped = (Ok tt, stopped)).
  { intros cv. unfold animate, bind, get. now rewrite R. }
  split; [exact R |]. split; [exact D |]. split; [| split; [| split]].
  - unfold on_closing, root_destroy, bind, get, modify.
    destruct s as [rd aq w h cv fr rn cx cy md ps ws fs g].
    destruct rd; reflexivity.
  - clearbody stopped.
    unfold on_closing, root_destroy, bind, get, modify.
    destruct stopped as [rd aq w h cv fr rn cx cy md ps ws fs g].
    cbn in R, D. subst. reflexivity.
  - exact A.
  - intros cv. induction n as [| n IH]; [reflexivity |].
    cbn [ticks]. unfold exec. now rewrite A.
Qed.

(** C7.  Whatever the state (profile and frame included),
    [create_mood_stone_core] leaves on the canvas what was there under
    other tags, followed by at most 10 new primitives; each is an oval
    tagged ["stone_core"] whose radii, half the width and half the height
    of its bounding box, are positive; and they are all the primitives
    with that tag. *)
Theorem C7_stone_core_ovals :
  forall (s : viz),
    let s' := exec create_mood_stone_core s in
    exists emitted,
      canvas s'
      = filter (fun i => negb (is_tagged "stone_core" i)) (canvas s) ++ emitted
      /\ (List.length emitted <= 10)%nat
      /\ Forall (positive_oval "stone_core") emitted
      /\ filter (is_tagged "stone_core") (canvas s') = emitted.
Proof.
  intros s s'. subst s'.
  destruct (create_mood_stone_core_emits s) as (emitted & E & L & F).
  assert (P : Forall (positive_oval "stone_core") emitted).
  { eapply Forall_impl; [| exact F]. now intros i []. }
  exists emitted. split; [exact E |]. split; [exact L |]. split; [exact P |].
  rewrite E, filter_app, filter_filter_negb. simpl.
  apply filter_all. eapply Forall_impl; [| exact P].
  intros i. apply positive_oval_tagged.
Qed.

(** C8.  The physics part of the loop body returns for every particle,
    index and state.  The divisor of the pull is positive for every
    displacement, it is 1 at displacement zero, and both divisions by it
    return. *)
Theorem C8_physics_total :
  forall (i : nat) (p : Particle.t) (s : viz),
    let dx := IZR (center_x s) - Particle.x p in
    let dy := IZR (center_y s) - Particle.y p in
    (exists p', physics i p s = (Ok p', exec (physics i p) s))
    /\ 0 < pull_distance dx dy
    /\ pull_distance 0 0 = 1
    /\ truediv dx (pull_distance dx dy) = Ok (dx / pull_distance dx dy)
    /\ truediv dy (pull_distance dx dy) = Ok (dy / pull_distance dx dy).
Proof.
  intros i p s dx dy.
  split.
  { destruct (physics_returns i p s) as (p' & E & _). now exists p'. }
  split; [apply pull_distance_pos |].
  split; [apply pull_distance_at_center; lra |].
  split; apply truediv_pull.
Qed.

(** C9, the claim as stated fails, in two ways.  The palette entry
    ["#GGGGGG"] is not a hex colour and the render hands it unchanged to
    [create_oval]; Tk, whatever its colour table, refuses it, and the
    first tick after [__init__] raises [TclError] with the frame counter
    at 0 and no timer registered.  The entry ["x8B0000"] is not a hex
    colour either, and the render does not use it unchanged: it computes
    ["#8b0000"] from it. *)
Lemma C9_counterexample :
  let s := snd (init not_hex_mood (steady (1 / 2))) in
  (rrggbb "#GGGGGG" = false
   /\ ring_color "#GGGGGG" (IZR (stress_level (mood_data s)) / 100)
                 (frame s) 0 s
      = (Ok "#GGGGGG"%string, s)
   /\ forall named : string -> bool,
        fst (@animate (Tk.canvas named) s) = Raise TclError
        /\ frame (exec (@animate (Tk.canvas named)) s) = 0%Z
        /\ after_queue (exec (@animate (Tk.canvas named)) s) = [])
  /\ (rrggbb "x8B0000" = false
      /\ forall (fr ring : Z) (s' : viz),
           ring_color "x8B0000" 0 fr ring s' = (Ok "#8b0000"%string, s')).
Proof.
  cbv zeta. rewrite init_state.
  set (s := initialized not_hex_mood (steady (1 / 2))).
  split; [split; [reflexivity | split; [reflexivity |]] |].
  - intros named.
    assert (W : well_formed s).
    { apply initialized_well_formed; [apply steady_valid; lra | discriminate]. }
    assert (Hn : nth_error (colors (mood_data s))
                   (ring_index (List.length (colors (mood_data s)))
                               (frame s) 0)
                 = Some "#GGGGGG"%string).
    { pose proof (ring_index_bound (colors (mood_data s)) (frame s) 0
                    ltac:(discriminate)) as B.
      change (List.length (colors (mood_data s))) with 1%nat in *.
      destruct (ring_index 1 (frame s) 0) as [| k]; [reflexivity | lia]. }
    destruct (tk_animate_rejected named s 0 "#GGGGGG") as (s' & E & C);
      try reflexivity; try exact Hn.
    + exact (proj2 W).
    + change (economic_pressure (mood_data s)) with 85%Z. lia.
    + change (range 10) with [0; 1; 2; 3; 4; 5; 6; 7; 8; 9]%Z. now left.
    + apply ring_size_first.
      change (economic_pressure (mood_data s)) with 85%Z. lra.
    + unfold exec. rewrite E. cbn [fst snd].
      unfold clock in C. injection C as C1 C2.
      split; [reflexivity |]. split; [exact C1 | exact C2].
  - split; [reflexivity |]. intros fr ring s'.
    unfold ring_color, try_except, bind, ret.
    change (String.length "x8B0000" =? 7)%nat with true. cbv iota.
    change (int16 (slice 1 3 "x8B0000")) with (Some 139%Z).
    change (int16 (slice 3 5 "x8B0000")) with (Some 0%Z).
    change (int16 (slice 5 7 "x8B0000")) with (Some 0%Z).
    cbv beta iota.
    rewrite (clamp_channel 139), !(clamp_channel 0) by (lia || ring).
    reflexivity.
Qed.

(** C9, as amended.  Take a running state whose particles have a
    ['max_life'] other than zero and whose economic pressure is at most
    170, so that the tick reaches [create_mood_stone_core], a ring of
    positive size, and the palette entry [c] that the ring reads, which
    lines 559-573 do not convert ([parseable c = false]: its length is not
    7, or [int(_, 16)] refuses one of its three fields).  Then [c] is not
    a colour of the form [#rrggbb], and the colour computed for the ring
    is [c] itself.  On Tk's canvas, whatever its colour table:
    when Tk accepts every entry of the palette that the code does not
    convert, the tick returns, the oval of the ring is on the canvas,
    filled with [c], the frame counter has advanced and the next tick is
    registered; when Tk does not accept [c], the tick raises [TclError],
    the frame counter has not advanced and no tick is registered. *)
Theorem C9_raw_entry_meets_tk
        (named : string -> bool) (s : viz) (ring : Z) (c : string) :
  running s = true ->
  Forall (fun q => Particle.max_life q <> 0) (particles s) ->
  (economic_pressure (mood_data s) <= 170)%Z ->
  In ring (range 10) ->
  0 < ring_size (IZR (economic_pressure (mood_data s)) / 100) (frame s) ring ->
  nth_error (colors (mood_data s))
            (ring_index (List.length (colors (mood_data s))) (frame s) ring)
  = Some c ->
  parseable c = false ->
  let tick := @animate (Tk.canvas named) in
  rrggbb c = false
  /\ ring_color c (IZR (stress_level (mood_data s)) / 100) (frame s) ring s
     = (Ok c, s)
  /\ (raw_entries_accepted named (colors (mood_data s)) ->
      tick s = (Ok tt, exec tick s)
      /\ In (ring_oval (center_x s) (center_y s)
                       (IZR (economic_pressure (mood_data s)) / 100)
                       (frame s) ring c)
            (canvas (exec tick s))
      /\ frame (exec tick s) = (frame s + 1)%Z
      /\ after_queue (exec tick s) = after_queue s ++ [40%Z])
  /\ (Tk.color named c = false ->
      fst (tick s) = Raise TclError
      /\ frame (exec tick s) = frame s
      /\ after_queue (exec tick s) = after_queue s).
Proof.
  intros Hr Hm Hp Hin Hpos Hn Hpar tick. subst tick.
  split; [| split; [| split]].
  - destruct (rrggbb c) eqn:E; [| reflexivity].
    apply rrggbb_parseable in E. congruence.
  - now apply ring_color_raw.
  - intros Ha. unfold exec.
    rewrite (tk_animate_accepted named s Hp Ha).
    change (snd (animate s)) with (exec animate s).
    assert (W : well_formed s).
    { split; [| exact Hm]. intros E. rewrite E in Hn.
      now destruct (ring_index _ _ _). }
    pose proof (animate_returns s W) as R.
    split; [exact R |]. split.
    + apply (animate_draws_ring s ring c c Hr Hm Hp Hin Hn); [| exact Hpos].
      intros s'. now apply ring_color_raw.
    + pose proof (animate_clock s Hr) as K. unfold wp in K.
      rewrite R in K. cbn [fst snd] in K. unfold clock in K.
      injection K as K1 K2. split; [exact K1 | exact K2].
  - intros Hk.
    destruct (tk_animate_rejected named s ring c Hr Hm Hp Hin Hn Hpar Hk Hpos)
      as (s' & E & C).
    unfold exec. rewrite E. cbn [fst snd].
    unfold clock in C. injection C as C1 C2.
    split; [reflexivity |]. split; [exact C1 | exact C2].
Qed.

(** C9 at the first tick of a profile whose palette starts with the name
    ["red"], on a Tk that knows this name: ring 0 reads ["red"] and its
    oval is filled with it. *)
Lemma C9_witness :
  let s := initialized named_palette_mood (steady (1 / 2)) in
  let tick := @animate (Tk.canvas only_red) in
  running s = true
  /\ Forall (fun q => Particle.max_life q <> 0) (particles s)
  /\ (economic_pressure (mood_data s) <= 170)%Z
  /\ In 0%Z (range 10)
  /\ 0 < ring_size (IZR (economic_pressure (mood_data s)) / 100) (frame s) 0
  /\ nth_error (colors (mood_data s))
               (ring_index (List.length (colors (mood_data s))) (frame s) 0)
     = Some "red"%string
  /\ parseable "red" = false
  /\ raw_entries_accepted only_red (colors (mood_data s))
  /\ tick s = (Ok tt, exec tick s)
  /\ In (ring_oval 500 350 (85 / 100) 0 0 "red") (canvas (exec tick s)).
Proof.
  intros s tick.
  assert (Hr : running s = true) by reflexivity.
  assert (Hm : Forall (fun q => Particle.max_life q <> 0) (particles s)).
  { apply initialized_well_formed; [apply steady_valid; lra | discriminate]. }
  assert (Hp : (economic_pressure (mood_data s) <= 170)%Z).
  { change (economic_pressure (mood_data s)) with 85%Z. lia. }
  assert (Hin : In 0%Z (range 10)).
  { change (range 10) with [0; 1; 2; 3; 4; 5; 6; 7; 8; 9]%Z. now left. }
  assert (Hpos : 0 < ring_size (IZR (economic_pressure (mood_data s)) / 100)
                               (frame s) 0).
  { apply ring_size_first.
    change (economic_pressure (mood_data s)) with 85%Z. lra. }
  assert (Hn : nth_error (colors (mood_data s))
                 (ring_index (List.length (colors (mood_data s))) (frame s) 0)
               = Some "red"%string).
  { change (frame s) with 0%Z. now rewrite ring_index_origin. }
  assert (Hpar : parseable "red" = false) by reflexivity.
  assert (Ha : raw_entries_accepted only_red (colors (mood_data s))).
  { unfold raw_entries_accepted. repeat constructor. }
  split; [exact Hr |]. split; [exact Hm |]. split; [exact Hp |].
  split; [exact Hin |]. split; [exact Hpos |]. split; [exact Hn |].
  split; [exact Hpar |]. split; [exact Ha |].
  destruct (C9_raw_entry_meets_tk only_red s 0 "red" Hr Hm Hp Hin Hpos Hn Hpar)
    as (_ & _ & Hacc & _).
  destruct (Hacc Ha) as (R & O & _).
  split; [exact R | exact O].
Defined.

(** C10, the claim as stated fails.  With the demo profile and draws that
    give every particle a life of 125.5, a ['max_life'] of 125 and a size
    of 2.5, the first particle starts with more life than ['max_life'];
    the loop body of [update_particle_systems] draws it after the
    decrement, with [life / max_life] = 124.5 / 125 and a radius of 2.49,
    below its size. *)
Lemma C10_counterexample :
  let s := snd (init demo_mood (every_eighth (151 / 300) (1 / 2))) in
  exists p p' x0 y0 x1 y1 c,
    nth_error (particles s) 0 = Some p
    /\ Particle.max_life p < Particle.life p
    /\ nth_error (particles (exec (update_particle 0 p) s)) 0 = Some p'
    /\ canvas (exec (update_particle 0 p) s)
       = canvas s ++ [oval x0 y0 x1 y1 c "particles"]
    /\ (x1 - x0) / 2
       = Particle.size p' * (Particle.life p' / Particle.max_life p')
    /\ Particle.life p' / Particle.max_life p' < 1
    /\ (x1 - x0) / 2 < Particle.size p.
Proof.
  cbv zeta. rewrite init_state.
  set (g := every_eighth (151 / 300) (1 / 2)).
  set (s := initialized demo_mood g).
  pose proof (initialized_first_particle g) as Hn. fold s in Hn.
  set (p := particle_of_draws 500 350 g (8 * 0 + Random.cursor g)) in *.
  destruct (particle_of_draws_every_eighth 500 350 (151 / 300) (1 / 2) 0)
    as (Hl & Hm & Hs).
  fold g in Hl, Hm, Hs.
  change (particle_of_draws 500 350 g (8 * 0 + 0)) with p in *.
  destruct (update_particle_alive s 0 p Hn) as (p1 & E & Cv & N1 & L1 & C1);
    [lra |].
  assert (M1 : Particle.max_life p1 = Particle.max_life p)
    by (unfold particle_const in C1; congruence).
  assert (S1 : Particle.size p1 = Particle.size p)
    by (unfold particle_const in C1; congruence).
  assert (A : Particle.life p1 / Particle.max_life p1 = 249 / 250).
  { rewrite L1, M1, Hl, Hm. field. }
  destruct (draw_particle_canvas p1 (exec (physics 0 p) s))
    as (x0 & y0 & x1 & y1 & c & Ec & Er).
  { rewrite M1, Hm. lra. }
  { rewrite A, S1, Hs. lra. }
  exists p, p1, x0, y0, x1, y1, c.
  split; [exact Hn |]. split; [lra |]. split; [exact N1 |].
  split; [now rewrite E, Ec, Cv |].
  split; [exact Er |]. split; [rewrite A; lra |].
  rewrite Er, A, S1, Hs. lra.
Qed.

(** C10, as amended.  A particle at index [i] whose life exceeds its
    positive ['max_life'] by more than 1, and whose size is at least 1/2,
    is drawn by the loop body of [update_particle_systems] with
    [life / max_life] above 1, life being the value after the decrement,
    and with a radius above its size.  [initialize_particles] creates such
    particles for some draws: life and ['max_life'] come from two
    different draws, each in [50, 200]. *)
Theorem C10_life_above_max_life (s : viz) (i : nat) (p : Particle.t) :
  nth_error (particles s) i = Some p ->
  0 < Particle.max_life p ->
  Particle.max_life p + 1 < Particle.life p ->
  1 / 2 <= Particle.size p ->
  (exists p' x0 y0 x1 y1 c,
     nth_error (particles (exec (update_particle i p) s)) i = Some p'
     /\ canvas (exec (update_particle i p) s)
        = canvas s ++ [oval x0 y0 x1 y1 c "particles"]
     /\ (x1 - x0) / 2
        = Particle.size p' * (Particle.life p' / Particle.max_life p')
     /\ 1 < Particle.life p' / Particle.max_life p'
     /\ Particle.size p < (x1 - x0) / 2)
  /\ (exists g,
        Random.valid g
        /\ Forall (fun q => 50 <= Particle.max_life q <= 200
                            /\ 50 <= Particle.life q <= 200
                            /\ Particle.max_life q + 1 < Particle.life q)
                  (particles (snd (init demo_mood g)))).
Proof.
  intros Hn Hm Hl Hs. split.
  - destruct (update_particle_alive s i p Hn) as (p1 & E & Cv & N1 & L1 & C1);
      [lra |].
    assert (M1 : Particle.max_life p1 = Particle.max_life p)
      by (unfold particle_const in C1; congruence).
    assert (S1 : Particle.size p1 = Particle.size p)
      by (unfold particle_const in C1; congruence).
    assert (A : 1 < Particle.life p1 / Particle.max_life p1).
    { rewrite L1, M1. apply Rmult_lt_reg_r with (r := Particle.max_life p);
        [exact Hm |].
      unfold Rdiv. rewrite Rmult_assoc, Rinv_l by lra. lra. }
    assert (B : Particle.size p
                < Particle.size p1
                  * (Particle.life p1 / Particle.max_life p1)).
    { rewrite S1. nra. }
    destruct (draw_particle_canvas p1 (exec (physics i p) s))
      as (x0 & y0 & x1 & y1 & c & Ec & Er).
    { rewrite M1. lra. }
    { lra. }
    exists p1, x0, y0, x1, y1, c.
    split; [exact N1 |]. split; [now rewrite E, Ec, Cv |].
    split; [exact Er |]. split; [exact A |]. now rewrite Er.
  - exists (every_eighth (9 / 10) (1 / 10)).
    assert (V : Random.valid (every_eighth (9 / 10) (1 / 10)))
      by (apply every_eighth_valid; lra).
    split; [exact V |].
    rewrite init_state. unfold initialized. cbn [particles].
    apply Forall_forall. intros q Hq. apply in_map_iff in Hq.
    destruct Hq as (j & <- & _).
    destruct (particle_of_draws_every_eighth 500 350 (9 / 10) (1 / 10) j)
      as (Hl' & Hm' & _).
    cbn [Random.cursor every_eighth].
    rewrite Hl', Hm'. lra.
Qed.

(** C10 at the first particle of the demo profile, with a life of 185 and
    a ['max_life'] of 65. *)
Lemma C10_witness :
  let g := every_eighth (9 / 10) (1 / 10) in
  let s := initialized demo_mood g in
  let p := particle_of_draws 500 350 g (8 * 0 + 0) in
  nth_error (particles s) 0 = Some p
  /\ 0 < Particle.max_life p
  /\ Particle.max_life p + 1 < Particle.life p
  /\ 1 / 2 <= Particle.size p
  /\ exists p' x0 y0 x1 y1 c,
       nth_error (particles (exec (update_particle 0 p) s)) 0 = Some p'
       /\ canvas (exec (update_particle 0 p) s)
          = canvas s ++ [oval x0 y0 x1 y1 c "particles"]
       /\ (x1 - x0) / 2
          = Particle.size p' * (Particle.life p' / Particle.max_life p')
       /\ 1 < Particle.life p' / Particle.max_life p'
       /\ Particle.size p < (x1 - x0) / 2.
Proof.
  intros g s p.
  destruct (particle_of_draws_every_eighth 500 350 (9 / 10) (1 / 10) 0)
    as (Hl & Hm & Hs).
  fold g in Hl, Hm, Hs. fold p in Hl, Hm, Hs.
  assert (N : nth_error (particles s) 0 = Some p)
    by apply (initialized_first_particle g).
  assert (M : 0 < Particle.max_life p) by (rewrite Hm; lra).
  assert (L : Particle.max_life p + 1 < Particle.life p)
    by (rewrite Hm, Hl; lra).
  assert (S : 1 / 2 <= Particle.size p) by (rewrite Hs; lra).
  split; [exact N |]. split; [exact M |]. split; [exact L |].
  split; [exact S |].
  exact (proj1 (C10_life_above_max_life s 0 p N M L S)).
Defined.
